(** * voice-ai-backend: query routing and answer synthesis of [server.js]

    A shallow embedding of the two revisions of [server.js]: the rule-routed
    chat handler ([routeQuery] and the dispatch switch of [POST /api/chat])
    and the model-augmented one ([chatWithOpenAI], [searchWithOpenAI]).

    JavaScript strings are modelled by [string]: one [ascii] per code unit, so
    the model covers messages whose code units are below 256 (ASCII and
    Latin-1).  The outside world (HTTP services, clock, [eval], database,
    completion service) is a record of oracles; handlers run in a small
    exception-and-trace monad over it. *)

From Stdlib Require Import Bool Arith List Lia Ascii String QArith.
Import ListNotations.
Open Scope string_scope.
Open Scope nat_scope.

(** ** JavaScript string primitives used by the server *)

Module JsString.

Definition code (c : ascii) : nat := nat_of_ascii c.

Definition in_range (lo hi : nat) (c : ascii) : bool :=
  (lo <=? code c) && (code c <=? hi).

(** [\d] without the unicode flag: the ten ASCII digits. *)
Definition is_digit (c : ascii) : bool := in_range 48 57 c.

(** [a-z] and [A-Z]. *)
Definition is_lower (c : ascii) : bool := in_range 97 122 c.
Definition is_upper (c : ascii) : bool := in_range 65 90 c.
Definition is_letter (c : ascii) : bool := is_lower c || is_upper c.

(** [\s] (and the characters [trim] removes), restricted to code units below
    256: TAB, LF, VT, FF, CR, SPACE and NBSP. *)
Definition is_space (c : ascii) : bool :=
  in_range 9 13 c || (code c =? 32) || (code c =? 160).

(** [String.prototype.toLowerCase] on one code unit: [A-Z] and the Latin-1
    capitals (U+00C0..U+00DE except the multiplication sign U+00D7) move up
    by 32, everything else is unchanged. *)
Definition lower_char (c : ascii) : ascii :=
  if is_upper c then ascii_of_nat (code c + 32)
  else if in_range 192 222 c && negb (code c =? 215)
       then ascii_of_nat (code c + 32)
       else c.

Fixpoint toLowerCase (s : string) : string :=
  match s with
  | EmptyString => EmptyString
  | String c s' => String (lower_char c) (toLowerCase s')
  end.

(** [s.startsWith(p)]. *)
Fixpoint startsWith (p s : string) : bool :=
  match p, s with
  | EmptyString, _ => true
  | String _ _, EmptyString => false
  | String a p', String b s' => Ascii.eqb a b && startsWith p' s'
  end.

(** [s.includes(sub)]: [sub] occurs at some index of [s]. *)
Fixpoint includes (s sub : string) : bool :=
  startsWith sub s ||
  match s with
  | EmptyString => false
  | String _ s' => includes s' sub
  end.

(** Longest prefix of [s] whose characters satisfy [p], and what follows. *)
Fixpoint takeWhile (p : ascii -> bool) (s : string) : string :=
  match s with
  | EmptyString => EmptyString
  | String c s' => if p c then String c (takeWhile p s') else EmptyString
  end.

Fixpoint dropWhile (p : ascii -> bool) (s : string) : string :=
  match s with
  | EmptyString => EmptyString
  | String c s' => if p c then dropWhile p s' else s
  end.

Fixpoint all_chars (p : ascii -> bool) (s : string) : bool :=
  match s with
  | EmptyString => true
  | String c s' => p c && all_chars p s'
  end.

Fixpoint rev (s : string) : string :=
  match s with
  | EmptyString => EmptyString
  | String c s' => rev s' ++ String c EmptyString
  end.

(** [String.prototype.trim]. *)
Definition trim (s : string) : string :=
  rev (dropWhile is_space (rev (dropWhile is_space s))).

(** The first [n] code units of [s], and [s] without them. *)
Fixpoint take (n : nat) (s : string) : string :=
  match n, s with
  | S n', String c s' => String c (take n' s')
  | _, _ => EmptyString
  end.

Fixpoint drop (n : nat) (s : string) : string :=
  match n, s with
  | S n', String _ s' => drop n' s'
  | _, _ => s
  end.

(** JavaScript truthiness of a string: every string but the empty one. *)
Definition truthy (s : string) : bool :=
  match s with EmptyString => false | _ => true end.

(** Truthiness of a property that may be missing ([undefined]). *)
Definition truthy_opt (o : option string) : bool :=
  match o with Some s => truthy s | None => false end.

End JsString.
Import JsString.

(** ** Regular expressions

    The fragment of ECMAScript regular expressions the server uses, with the
    backtracking semantics of the language: alternatives and repetitions are
    tried in priority order (greedy first) and the first overall success
    wins.  Repetition is only ever applied to a character class. *)

Module Regex.

Inductive regex : Type :=
| Eps : regex
| Class (p : ascii -> bool) : regex
| Seq (r1 r2 : regex) : regex
| Alt (r1 r2 : regex) : regex
| Star (p : ascii -> bool) : regex
| Group (r : regex) : regex.

(** [p+] *)
Definition Plus (p : ascii -> bool) : regex := Seq (Class p) (Star p).

Definition char (c : ascii) : regex := Class (Ascii.eqb c).

(** A literal character under the [i] flag. *)
Definition char_i (c : ascii) : regex :=
  Class (fun x => Ascii.eqb (lower_char x) (lower_char c)).

Fixpoint lit (s : string) : regex :=
  match s with
  | EmptyString => Eps
  | String c s' => Seq (char c) (lit s')
  end.

Fixpoint lit_i (s : string) : regex :=
  match s with
  | EmptyString => Eps
  | String c s' => Seq (char_i c) (lit_i s')
  end.

(** What a match consumed: the input [s] without its unread suffix [rest]. *)
Definition consumed (s rest : string) : string :=
  take (String.length s - String.length rest) s.

(** Greedy [p*] followed by the continuation [k]: take one more character
    while that leads to success, give it back otherwise. *)
Fixpoint star {R : Type} (p : ascii -> bool) (s : string)
         (k : string -> option R) : option R :=
  match s with
  | EmptyString => k s
  | String c s' =>
      if p c then
        match star p s' k with
        | Some r => Some r
        | None => k s
        end
      else k s
  end.

(** [rmatch r s caps k]: match [r] at the front of [s]; on success hand the
    unread input and the captures made so far to [k]; [None] is failure and
    makes the caller backtrack. *)
Fixpoint rmatch {R : Type} (r : regex) (s : string) (caps : list string)
         (k : string -> list string -> option R) : option R :=
  match r with
  | Eps => k s caps
  | Class p =>
      match s with
      | String c s' => if p c then k s' caps else None
      | EmptyString => None
      end
  | Seq r1 r2 => rmatch r1 s caps (fun s1 c1 => rmatch r2 s1 c1 k)
  | Alt r1 r2 =>
      match rmatch r1 s caps k with
      | Some x => Some x
      | None => rmatch r2 s caps k
      end
  | Star p => star p s (fun s1 => k s1 caps)
  | Group r1 =>
      rmatch r1 s caps (fun s1 c1 => k s1 (c1 ++ [consumed s s1])%list)
  end.

(** The array returned by a successful match: element 0 and the groups. *)
Record MatchResult : Type := mkMatch {
  matched : string;
  groups : list string
}.

(** A match anchored at the front of [s]. *)
Definition match_here (r : regex) (s : string) : option MatchResult :=
  rmatch r s [] (fun rest caps => Some (mkMatch (consumed s rest) caps)).

(** [s.match(r)] for a regex without the [g] flag: the match at the smallest
    start index, [None] for [null]. *)
Fixpoint exec (r : regex) (s : string) : option MatchResult :=
  match match_here r s with
  | Some m => Some m
  | None =>
      match s with
      | EmptyString => None
      | String _ s' => exec r s'
      end
  end.

Definition test (r : regex) (s : string) : bool :=
  match exec r s with Some _ => true | None => false end.

(** [s.replace(r, '')] for a regex with the [g] flag whose matches are never
    empty.  [skip] counts the characters of the current match still to be
    dropped. *)
Fixpoint remove_all_from (r : regex) (s : string) (skip : nat) : string :=
  match s with
  | EmptyString => EmptyString
  | String c s' =>
      match skip with
      | S n => remove_all_from r s' n
      | O =>
          match match_here r s with
          | Some m =>
              match String.length (matched m) with
              | O => String c (remove_all_from r s' 0)
              | S n => remove_all_from r s' n
              end
          | None => String c (remove_all_from r s' 0)
          end
      end
  end.

Definition remove_all (r : regex) (s : string) : string :=
  remove_all_from r s 0.

End Regex.
Import Regex.

(** ** The outside world

    Every service the server talks to is an oracle of the [World]; a call is
    recorded in the trace of the run, so that what a handler did (and did not
    do) can be stated. *)

Module Runtime.

(** A thrown value or a rejected promise: [error.message], [error.status]. *)
Record JsError : Type := mkError {
  err_message : string;
  err_status : option nat
}.

Inductive outcome (A : Type) : Type :=
| Ok (a : A)
| Err (e : JsError).
Arguments Ok {A} a.
Arguments Err {A} e.

(** One entry of [geoRes.data.results]; numbers are kept as the text they
    are interpolated as. *)
Record GeoPlace : Type := mkPlace {
  latitude : string;
  longitude : string;
  name : string
}.

(** [weatherRes.data.current_weather]. *)
Record CurrentWeather : Type := mkCurrent {
  temperature : string;
  windspeed : string
}.

(** [res.data] of the DuckDuckGo instant-answer API; a field may be missing. *)
Record DdgData : Type := mkDdg {
  AbstractText : option string;
  Answer : option string
}.

(** [new Chat({ userId, message, response })]. *)
Record ChatDoc : Type := mkChat {
  doc_userId : string;
  doc_message : string;
  doc_response : string
}.

(** The argument of [openai.chat.completions.create]: a system message and a
    user message. *)
Record CompletionRequest : Type := mkRequest {
  req_model : string;
  system_content : string;
  user_content : string;
  max_tokens : nat;
  req_temperature : Q
}.

Record World : Type := mkWorld {
  (** [axios.get] of the geocoding URL for a location name, giving
      [data.results] ([None] when the field is missing) *)
  geocode : string -> outcome (option (list GeoPlace));
  (** [axios.get] of the forecast URL for a latitude and a longitude, giving
      [data.current_weather] ([None] when the field is missing) *)
  forecast : string -> string -> outcome (option CurrentWeather);
  (** [axios.get] of the Wikipedia summary URL, giving [data.extract] *)
  wikipedia : string -> outcome (option string);
  (** [axios.get] of the DuckDuckGo URL, giving [data] *)
  duckduckgo : string -> outcome DdgData;
  (** [new Date().toLocaleString()] *)
  locale_now : string;
  (** [eval] of a source text, giving the result as a template literal
      interpolates it *)
  js_eval : string -> outcome string;
  (** [mongoose.connection.readyState === 1] *)
  db_ready : bool;
  (** [chat.save()] *)
  db_save : ChatDoc -> outcome unit;
  (** [openai.chat.completions.create], giving
      [choices[0].message.content] *)
  openai_create : CompletionRequest -> outcome string
}.

Inductive call : Type :=
| CallGeocode (location : string)
| CallForecast (lat lon : string)
| CallWikipedia (topic : string)
| CallDuckDuckGo (query : string)
| CallClock
| CallEval (source : string)
| CallSave (doc : ChatDoc)
| CallOpenAI (req : CompletionRequest)
| CallConsoleError (label : string) (e : JsError).

(** Computations that read the world, may throw, and leave a trace. *)
Definition M (A : Type) : Type := World -> outcome A * list call.

Definition ret {A : Type} (a : A) : M A := fun _ => (Ok a, []).

Definition throw {A : Type} (e : JsError) : M A := fun _ => (Err e, []).

Definition bind {A B : Type} (m : M A) (f : A -> M B) : M B :=
  fun w =>
    match m w with
    | (Ok a, t) => let (r, t') := f a w in (r, (t ++ t')%list)
    | (Err e, t) => (Err e, t)
    end.

(** [try { m } catch (error) { h error }] *)
Definition try_catch {A : Type} (m : M A) (h : JsError -> M A) : M A :=
  fun w =>
    match m w with
    | (Ok a, t) => (Ok a, t)
    | (Err e, t) => let (r, t') := h e w in (r, (t ++ t')%list)
    end.

(** An awaited call to a service. *)
Definition perform {A : Type} (c : call) (f : World -> outcome A) : M A :=
  fun w => (f w, [c]).

Definition result {A : Type} (m : M A) (w : World) : outcome A := fst (m w).
Definition trace {A : Type} (m : M A) (w : World) : list call := snd (m w).

End Runtime.
Import Runtime.

Declare Scope js_scope.
Delimit Scope js_scope with js.
Notation "x <- m ;; k" := (bind m (fun x => k))
  (at level 61, m at next level, right associativity) : js_scope.
Notation "m ;;; k" := (bind m (fun _ => k))
  (at level 61, right associativity) : js_scope.
Open Scope js_scope.

(** The awaited calls of [server.js]. *)
Definition axios_geocode (location : string) : M (option (list GeoPlace)) :=
  perform (CallGeocode location) (fun w => geocode w location).

Definition axios_forecast (lat lon : string) : M (option CurrentWeather) :=
  perform (CallForecast lat lon) (fun w => forecast w lat lon).

Definition axios_wikipedia (topic : string) : M (option string) :=
  perform (CallWikipedia topic) (fun w => wikipedia w topic).

Definition axios_duckduckgo (query : string) : M DdgData :=
  perform (CallDuckDuckGo query) (fun w => duckduckgo w query).

Definition date_now : M string :=
  perform CallClock (fun w => Ok (locale_now w)).

Definition eval (source : string) : M string :=
  perform (CallEval source) (fun w => js_eval w source).

Definition chat_save (doc : ChatDoc) : M unit :=
  perform (CallSave doc) (fun w => db_save w doc).

Definition completions_create (req : CompletionRequest) : M string :=
  perform (CallOpenAI req) (fun w => openai_create w req).

Definition console_error (label : string) (e : JsError) : M unit :=
  perform (CallConsoleError label e) (fun _ => Ok tt).

(** Reading [mongoose.connection.readyState] is not a call. *)
Definition connection_ready : M bool := fun w => (Ok (db_ready w), []).

(** [error.status === n] *)
Definition status_is (e : JsError) (n : nat) : bool :=
  match err_status e with
  | Some m => m =? n
  | None => false
  end.

(** A [TypeError] raised by the language itself. *)
Definition type_error (msg : string) : JsError := mkError msg None.

(** ** Requests and replies of [POST /api/chat] *)

Inductive Intent : Type := Weather | Time | Math | Knowledge | General.

(** The string [routeQuery] returns for each intent. *)
Definition intent_name (i : Intent) : string :=
  match i with
  | Weather => "weather"
  | Time => "time"
  | Math => "math"
  | Knowledge => "knowledge"
  | General => "general"
  end.

(** [req.body]: each field a string or missing. *)
Record ChatBody : Type := mkBody {
  userId : option string;
  message : option string
}.

Inductive Reply : Type :=
| ChatOk (response : string) (queryType : option Intent)
    (** [res.json({ success: true, response, queryType })] *)
| SearchOk (results : string)
    (** [res.json({ success: true, results })] *)
| ErrorReply (status : nat) (error : string) (detail : option string)
    (** [res.status(status).json({ error, message })] *).

Definition default_to (d : string) (o : option string) : string :=
  match o with Some s => s | None => d end.

Definition quote : string := String (ascii_of_nat 34) EmptyString.
Definition degree : string := String (ascii_of_nat 176) EmptyString.

(** [a || d] for a property [a] that may be missing. *)
Definition or_else (a : option string) (d : string) : string :=
  match a with
  | Some s => if truthy s then s else d
  | None => d
  end.

(** ** The rule-routed server (first revision of [server.js]) *)

Module RuleRouted.

Definition is_operator (c : ascii) : bool :=
  Ascii.eqb c "+" || Ascii.eqb c "-" || Ascii.eqb c "*" || Ascii.eqb c "/".

(** [/\d+\s*[+\-*/]\s*\d+/] *)
Definition arithmetic_re : regex :=
  Seq (Plus is_digit)
      (Seq (Star is_space)
           (Seq (Class is_operator)
                (Seq (Star is_space) (Plus is_digit)))).

Definition routeQuery (query : string) : Intent :=
  let lowerQuery := toLowerCase query in
  if includes lowerQuery "weather" || includes lowerQuery "temperature"
  then Weather
  else if includes lowerQuery "time" || includes lowerQuery "date"
  then Time
  else if test arithmetic_re lowerQuery
  then Math
  else if includes lowerQuery "who is" || includes lowerQuery "what is"
          || includes lowerQuery "define"
  then Knowledge
  else General.

Definition getWeather (location : option string) : M string :=
  let location := default_to "London" location in
  try_catch
    (results <- axios_geocode location ;;
     match results with
     | Some (place :: _) =>
         current <- axios_forecast (latitude place) (longitude place) ;;
         match current with
         | Some weather =>
             ret ("The weather in " ++ name place ++ " is "
                  ++ temperature weather ++ degree ++ "C with wind speed "
                  ++ windspeed weather ++ " km/h.")
         | None => throw (type_error "Cannot read properties of undefined")
         end
     | _ => ret "Weather location not found."
     end)
    (fun _ => ret "Unable to fetch weather at the moment.").

Definition searchWikipedia (query : string) : M string :=
  try_catch
    (extract <- axios_wikipedia query ;;
     ret (or_else extract "No information found."))
    (fun _ => ret "Unable to find information.").

Definition searchDuckDuckGo (query : string) : M string :=
  try_catch
    (data <- axios_duckduckgo query ;;
     ret (or_else (AbstractText data)
                  (or_else (Answer data) "No results found.")))
    (fun _ => ret "Search unavailable.").

Definition is_letter_or_space (c : ascii) : bool := is_letter c || is_space c.

(** [/in ([a-zA-Z\s]+)/] *)
Definition location_re : regex :=
  Seq (lit "in ") (Group (Plus is_letter_or_space)).

(** [message.match(/in ([a-zA-Z\s]+)/)?.[1] || 'London'] *)
Definition extract_location (message : string) : string :=
  match exec location_re message with
  | Some m => or_else (nth_error (groups m) 0) "London"
  | None => "London"
  end.

Definition is_expression_char (c : ascii) : bool :=
  is_digit c || Ascii.eqb c "+" || Ascii.eqb c "-" || Ascii.eqb c "*"
  || Ascii.eqb c "/" || Ascii.eqb c "(" || Ascii.eqb c ")"
  || Ascii.eqb c "." || is_space c.

(** [/[\d+\-*/().\s]+/] *)
Definition expression_re : regex := Plus is_expression_char.

(** [message.match(/[\d+\-*/().\s]+/)[0]]: indexing [null] throws. *)
Definition extract_expression (message : string) : M string :=
  match exec expression_re message with
  | Some m => ret (matched m)
  | None => throw (type_error "Cannot read properties of null")
  end.

(** [/(who is|what is|define)/gi] *)
Definition phrase_re : regex :=
  Group (Alt (lit_i "who is") (Alt (lit_i "what is") (lit_i "define"))).

(** [message.replace(/(who is|what is|define)/gi, '').trim()] *)
Definition extract_topic (message : string) : string :=
  trim (remove_all phrase_re message).

Definition acknowledgment (message : string) : string :=
  "I received your message: " ++ quote ++ message ++ quote
  ++ ". I'm working on understanding more complex queries!".

(** The [switch (queryType)] of the chat handler. *)
Definition dispatch (queryType : Intent) (message : string) : M string :=
  match queryType with
  | Weather =>
      let location := extract_location message in
      getWeather (Some location)
  | Time =>
      now <- date_now ;;
      ret ("Current time: " ++ now)
  | Math =>
      try_catch
        (source <- extract_expression message ;;
         result <- eval source ;;
         ret ("The answer is: " ++ result))
        (fun _ => ret "Could not calculate that.")
  | Knowledge =>
      let topic := extract_topic message in
      searchWikipedia topic
  | General =>
      response <- searchDuckDuckGo message ;;
      if negb (truthy response) || String.eqb response "No results found."
      then ret (acknowledgment message)
      else ret response
  end.

(** [app.post('/api/chat', ...)] *)
Definition chat (body : ChatBody) : M Reply :=
  try_catch
    (let userId := default_to "anonymous" (userId body) in
     match message body with
     | None | Some EmptyString =>
         ret (ErrorReply 400 "Message is required" None)
     | Some message =>
         let queryType := routeQuery message in
         response <- dispatch queryType message ;;
         ready <- connection_ready ;;
         (if ready then chat_save (mkChat userId message response)
          else ret tt) ;;;
         ret (ChatOk response (Some queryType))
     end)
    (fun error =>
       console_error "Chat error:" error ;;;
       ret (ErrorReply 500 "Server error" (Some (err_message error)))).

End RuleRouted.

(** ** The model-augmented server (second revision of [server.js]) *)

Module ModelAugmented.

Definition assistant_prompt : string :=
  "You are a helpful AI assistant. Provide accurate, concise, and friendly responses. If asked about current events or real-time information, indicate that you may not have the latest data.".

Definition search_prompt : string :=
  "You are a helpful search assistant. Synthesize the provided search results into a clear, concise answer.".

Definition newline : string := String (ascii_of_nat 10) EmptyString.

(** The request of [chatWithOpenAI]: the message alone. *)
Definition direct_request (message : string) : CompletionRequest :=
  mkRequest "gpt-4o-mini" assistant_prompt message 500 (7 # 10).

(** The request of [searchWithOpenAI]: the query with the search results. *)
Definition synthesis_request (query searchResults : string)
  : CompletionRequest :=
  mkRequest "gpt-4o-mini" search_prompt
    ("User query: " ++ query ++ newline ++ newline
     ++ "Search results: " ++ searchResults ++ newline ++ newline
     ++ "Provide a clear answer based on these results.")
    300 (5 # 10).

Definition key_missing : string :=
  "OpenAI API key is not configured. Please add OPENAI_API_KEY to environment variables.".

Definition request_failed : string :=
  "I encountered an error processing your request. Please try again.".

Definition chatWithOpenAI (message : string) : M string :=
  try_catch
    (completions_create (direct_request message))
    (fun error =>
       console_error "OpenAI Error:" error ;;;
       if status_is error 401 then ret key_missing
       else ret request_failed).

Definition searchDuckDuckGo (query : string) : M string :=
  try_catch
    (data <- axios_duckduckgo query ;;
     ret (or_else (AbstractText data)
                  (or_else (Answer data) "No results found.")))
    (fun _ => ret "Search unavailable.").

Definition searchWithOpenAI (query : string) : M string :=
  try_catch
    (searchResults <- searchDuckDuckGo query ;;
     if negb (truthy searchResults)
        || String.eqb searchResults "No results found."
        || String.eqb searchResults "Search unavailable."
     then chatWithOpenAI query
     else completions_create (synthesis_request query searchResults))
    (fun error =>
       console_error "Search with OpenAI Error:" error ;;;
       chatWithOpenAI query).

(** [app.post('/api/chat', ...)] *)
Definition chat (body : ChatBody) : M Reply :=
  try_catch
    (let userId := default_to "anonymous" (userId body) in
     match message body with
     | None | Some EmptyString =>
         ret (ErrorReply 400 "Message is required" None)
     | Some message =>
         response <- chatWithOpenAI message ;;
         ready <- connection_ready ;;
         (if ready then chat_save (mkChat userId message response)
          else ret tt) ;;;
         ret (ChatOk response None)
     end)
    (fun error =>
       console_error "Chat error:" error ;;;
       ret (ErrorReply 500 "Server error" (Some (err_message error)))).

(** [app.post('/api/search', ...)]; [query] is [req.body.query]. *)
Definition search (query : option string) : M Reply :=
  try_catch
    (match query with
     | None | Some EmptyString =>
         ret (ErrorReply 400 "Query is required" None)
     | Some query =>
         results <- searchWithOpenAI query ;;
         ret (SearchOk results)
     end)
    (fun error =>
       console_error "Search error:" error ;;;
       ret (ErrorReply 500 "Search failed" (Some (err_message error)))).

End ModelAugmented.

(** ** The other endpoints that answer queries *)

(** [POST /api/search] of the first revision. *)
Module RuleRoutedSearch.

(** How a [query] that may be missing appears in the request URL:
    [encodeURIComponent(undefined)] is the text "undefined". *)
Definition query_text (query : option string) : string :=
  default_to "undefined" query.

(** [app.post('/api/search', ...)]; [query] is [req.body.query]. *)
Definition search (query : option string) : M Reply :=
  try_catch
    (results <- RuleRouted.searchDuckDuckGo (query_text query) ;;
     ret (SearchOk results))
    (fun _ => ret (ErrorReply 500 "Search failed" None)).

End RuleRoutedSearch.

(** [POST /api/chat] of the first revision on every body that
    [express.json()] can deliver: the message need not be a string. *)
Module RuleRoutedJson.

(** [req.body.message]. *)
Inductive MessageField : Type :=
| NoMessage                 (** no such field: [undefined] *)
| TextMessage (s : string)  (** a string *)
| FalsyValue                (** [null], [false] or [0] *)
| TruthyValue               (** another number, [true], an array, an object *).

Record JsonBody : Type := mkJsonBody {
  json_userId : option string;
  json_message : MessageField
}.

(** A body whose message is a string or missing. *)
Definition of_chat_body (body : ChatBody) : JsonBody :=
  mkJsonBody (userId body)
             match message body with
             | Some s => TextMessage s
             | None => NoMessage
             end.

(** What [routeQuery] throws on a value without a [toLowerCase] method. *)
Definition not_a_string : JsError :=
  type_error "query.toLowerCase is not a function".

(** [app.post('/api/chat', ...)] *)
Definition chat (body : JsonBody) : M Reply :=
  try_catch
    (let userId := default_to "anonymous" (json_userId body) in
     match json_message body with
     | NoMessage | FalsyValue | TextMessage EmptyString =>
         ret (ErrorReply 400 "Message is required" None)
     | TruthyValue =>
         (* [routeQuery(message)] calls [query.toLowerCase()] *)
         throw not_a_string
     | TextMessage message =>
         let queryType := RuleRouted.routeQuery message in
         response <- RuleRouted.dispatch queryType message ;;
         ready <- connection_ready ;;
         (if ready then chat_save (mkChat userId message response)
          else ret tt) ;;;
         ret (ChatOk response (Some queryType))
     end)
    (fun error =>
       console_error "Chat error:" error ;;;
       ret (ErrorReply 500 "Server error" (Some (err_message error)))).

End RuleRoutedJson.

(** [POST /api/voice] of the second revision. *)
Module ModelAugmentedVoice.

(** [app.post('/api/voice', ...)] *)
Definition voice (body : ChatBody) : M Reply :=
  try_catch
    (let userId := default_to "anonymous" (userId body) in
     match message body with
     | None | Some EmptyString =>
         ret (ErrorReply 400 "Message is required" None)
     | Some message =>
         response <- ModelAugmented.chatWithOpenAI message ;;
         ready <- connection_ready ;;
         (if ready then chat_save (mkChat userId message response)
          else ret tt) ;;;
         ret (ChatOk response None)
     end)
    (fun error =>
       console_error "Voice error:" error ;;;
       ret (ErrorReply 500 "Server error" (Some (err_message error)))).

End ModelAugmentedVoice.

(** ** The notions of the specification *)

Import RuleRouted.

(** [text] contains the keyword [kw] case-insensitively: some substring of
    [text] lower-cases to [kw]. *)
Definition contains_ci (text kw : string) : Prop :=
  exists pre mid post, text = pre ++ mid ++ post /\ toLowerCase mid = kw.

(** [text] contains no weather keyword and no time keyword. *)
Definition no_weather_or_time_keyword (text : string) : Prop :=
  ~ contains_ci text "weather" /\ ~ contains_ci text "temperature" /\
  ~ contains_ci text "time" /\ ~ contains_ci text "date".

(** The language of a regular expression: the strings it can consume. *)
Inductive lang : regex -> string -> Prop :=
| lang_eps : lang Eps ""
| lang_class p c : p c = true -> lang (Class p) (String c "")
| lang_seq r1 r2 a b : lang r1 a -> lang r2 b -> lang (Seq r1 r2) (a ++ b)
| lang_alt_l r1 r2 a : lang r1 a -> lang (Alt r1 r2) a
| lang_alt_r r1 r2 a : lang r2 a -> lang (Alt r1 r2) a
| lang_star p a : all_chars p a = true -> lang (Star p) a
| lang_group r a : lang r a -> lang (Group r) a.

(** The flat arithmetic pattern: digits, optional whitespace, an operator,
    optional whitespace, digits, somewhere in the text. *)
Definition contains_flat_arithmetic (text : string) : Prop :=
  exists pre d1 w1 op w2 d2 post,
    text = pre ++ d1 ++ w1 ++ String op (w2 ++ d2 ++ post) /\
    d1 <> "" /\ all_chars is_digit d1 = true /\
    all_chars is_space w1 = true /\ is_operator op = true /\
    all_chars is_space w2 = true /\
    d2 <> "" /\ all_chars is_digit d2 = true.

(** The arithmetic pattern with nesting via parentheses: an operand is a run
    of digits or an expression in parentheses; an expression is two operands
    around an operator; whitespace may surround the operator and the
    expression inside parentheses. *)
Inductive operand : string -> Prop :=
| operand_digits d :
    d <> "" -> all_chars is_digit d = true -> operand d
| operand_nested w1 e w2 :
    all_chars is_space w1 = true -> arithmetic e ->
    all_chars is_space w2 = true ->
    operand ("(" ++ w1 ++ e ++ w2 ++ ")")
with arithmetic : string -> Prop :=
| arithmetic_binary a w1 op w2 b :
    operand a -> all_chars is_space w1 = true -> is_operator op = true ->
    all_chars is_space w2 = true -> operand b ->
    arithmetic (a ++ w1 ++ String op (w2 ++ b)).

Scheme arithmetic_mutual := Minimality for arithmetic Sort Prop
  with operand_mutual := Minimality for operand Sort Prop.

Definition contains_nested_arithmetic (text : string) : Prop :=
  exists pre e post, text = pre ++ e ++ post /\ arithmetic e.

(** The first maximal run of expression characters of a message. *)
Fixpoint first_expression_run (s : string) : option string :=
  match s with
  | EmptyString => None
  | String c s' =>
      if is_expression_char c then Some (takeWhile is_expression_char s)
      else first_expression_run s'
  end.

(** What follows the first occurrence of [sub] in [s]. *)
Fixpoint after_first (sub s : string) : option string :=
  if startsWith sub s then Some (drop (String.length sub) s)
  else match s with
       | EmptyString => None
       | String _ s' => after_first sub s'
       end.

(** The location as the specification words it: the maximal run of letters and
    whitespace after the first "in ", and the default when there is no
    "in " or nothing usable after it. *)
Definition location_after_first_in (message : string) : string :=
  match after_first "in " message with
  | Some rest => or_else (Some (takeWhile is_letter_or_space rest)) "London"
  | None => "London"
  end.

(** The maximal run of letters and whitespace after the first "in " that is
    directly followed by a letter or a whitespace character. *)
Fixpoint run_after_usable_in (s : string) : option string :=
  match s with
  | EmptyString => None
  | String _ s' =>
      if startsWith "in " s
         && truthy (takeWhile is_letter_or_space (drop 3 s))
      then Some (takeWhile is_letter_or_space (drop 3 s))
      else run_after_usable_in s'
  end.

Definition location_after_usable_in (message : string) : string :=
  match run_after_usable_in message with
  | Some run => run
  | None => "London"
  end.

(** The resolver a call to the outside world belongs to; persistence and
    logging belong to none. *)
Definition call_owner (c : call) : option Intent :=
  match c with
  | CallGeocode _ | CallForecast _ _ => Some Weather
  | CallClock => Some Time
  | CallEval _ => Some Math
  | CallWikipedia _ => Some Knowledge
  | CallDuckDuckGo _ => Some General
  | CallSave _ | CallOpenAI _ | CallConsoleError _ _ => None
  end.

(** Where an answer text can come from: the value one resolver returned, or
    the canned acknowledgment. *)
Inductive answer_source (w : World) (msg : string) : Intent -> string -> Prop :=
| from_weather loc r :
    result (getWeather (Some loc)) w = Ok r -> answer_source w msg Weather r
| from_clock : answer_source w msg Time ("Current time: " ++ locale_now w)
| from_eval src v :
    js_eval w src = Ok v ->
    answer_source w msg Math ("The answer is: " ++ v)
| from_eval_failure : answer_source w msg Math "Could not calculate that."
| from_wikipedia topic r :
    result (searchWikipedia topic) w = Ok r ->
    answer_source w msg Knowledge r
| from_search r :
    result (searchDuckDuckGo msg) w = Ok r -> answer_source w msg General r
| from_acknowledgment : answer_source w msg General (acknowledgment msg).

(** The web search gives nothing usable: it fails, or neither field of its
    answer holds text. *)
Definition search_unusable (w : World) (q : string) : Prop :=
  match duckduckgo w q with
  | Err _ => True
  | Ok data =>
      truthy_opt (AbstractText data) = false /\
      truthy_opt (Answer data) = false
  end.

(** The web search fails. *)
Definition search_fails (w : World) (q : string) : Prop :=
  exists e, duckduckgo w q = Err e.

(** The web search answers, with no text in either field. *)
Definition search_empty (w : World) (q : string) : Prop :=
  exists data, duckduckgo w q = Ok data /\
    truthy_opt (AbstractText data) = false /\
    truthy_opt (Answer data) = false.

(** The text [searchDuckDuckGo] hands to its caller. *)
Definition search_text (w : World) (q : string) : string :=
  match result (ModelAugmented.searchDuckDuckGo q) w with
  | Ok text => text
  | Err _ => ""
  end.

(** The synthesis over the search text is refused or breaks. *)
Definition synthesis_fails (w : World) (q : string) : Prop :=
  exists e,
    openai_create w (ModelAugmented.synthesis_request q (search_text w q))
    = Err e.

(** The text begins, or ends, with a whitespace character. *)
Definition starts_with_space (s : string) : bool :=
  match s with
  | String c _ => is_space c
  | EmptyString => false
  end.

Definition ends_with_space (s : string) : bool := starts_with_space (rev s).



Definition is_save_call (c : call) : bool :=
  match c with CallSave _ => true | _ => false end.

(** The log entry of the chat handler's catch, as the voice handler
    writes it. *)
Definition voice_label (c : call) : call :=
  match c with
  | CallConsoleError label e =>
      if String.eqb label "Chat error:" then CallConsoleError "Voice error:" e
      else c
  | _ => c
  end.

(** ** Sample worlds *)

Definition network_error : JsError := mkError "Network Error" None.

(** Every service answers, with nothing in it; the database is not
    connected. *)
Definition quiet_world : World :=
  mkWorld (fun _ => Ok None) (fun _ _ => Ok None) (fun _ => Ok None)
          (fun _ => Ok (mkDdg None None)) "1/1/2025, 12:00:00 PM"
          (fun _ => Err (mkError "Unexpected end of input" None))
          false (fun _ => Ok tt) (fun _ => Ok "").

(** The geocoder knows London and nothing else. *)
Definition london_only_world : World :=
  mkWorld (fun location =>
             if String.eqb location "London"
             then Ok (Some [mkPlace "51.50853" "-0.12574" "London"])
             else Ok (Some []))
          (fun _ _ => Ok (Some (mkCurrent "15.2" "10.1")))
          (wikipedia quiet_world) (duckduckgo quiet_world)
          (locale_now quiet_world) (js_eval quiet_world)
          false (db_save quiet_world) (openai_create quiet_world).

(** The web search is down. *)
Definition search_down_world : World :=
  mkWorld (geocode quiet_world) (forecast quiet_world)
          (wikipedia quiet_world) (fun _ => Err network_error)
          (locale_now quiet_world) (js_eval quiet_world)
          false (db_save quiet_world) (openai_create quiet_world).

(** The database is connected and every write to it fails. *)
Definition failing_db_world : World :=
  mkWorld (geocode quiet_world) (forecast quiet_world)
          (wikipedia quiet_world) (duckduckgo quiet_world)
          (locale_now quiet_world) (js_eval quiet_world)
          true (fun _ => Err (mkError "write failed" None))
          (openai_create quiet_world).

(** The synthesis request is refused; the direct one is answered. *)
Definition synthesis_down_world : World :=
  mkWorld (geocode quiet_world) (forecast quiet_world)
          (wikipedia quiet_world)
          (fun _ => Ok (mkDdg (Some "Paris is the capital of France.") None))
          (locale_now quiet_world) (js_eval quiet_world)
          false (db_save quiet_world)
          (fun req =>
             if String.eqb (system_content req) ModelAugmented.search_prompt
             then Err (mkError "Rate limit" (Some 429))
             else Ok "Paris.").

(** The completion service refuses the API key. *)
Definition rejected_key_world : World :=
  mkWorld (geocode quiet_world) (forecast quiet_world)
          (wikipedia quiet_world) (duckduckgo quiet_world)
          (locale_now quiet_world) (js_eval quiet_world)
          false (db_save quiet_world)
          (fun _ => Err (mkError "Incorrect API key" (Some 401))).

(** * Strings *)

Section StringFacts.

Lemma append_nil_r (s : string) : s ++ "" = s.
Proof. induction s as [|c s IH]; simpl; [reflexivity | now rewrite IH]. Qed.

Lemma append_assoc (a b c : string) : (a ++ b) ++ c = a ++ (b ++ c).
Proof. induction a as [|x a IH]; simpl; [reflexivity | now rewrite IH]. Qed.

Lemma length_append (a b : string) :
  String.length (a ++ b) = String.length a + String.length b.
Proof. induction a as [|x a IH]; simpl; [reflexivity | now rewrite IH]. Qed.

Lemma toLowerCase_app (a b : string) :
  toLowerCase (a ++ b) = toLowerCase a ++ toLowerCase b.
Proof. induction a as [|x a IH]; simpl; [reflexivity | now rewrite IH]. Qed.

(** A split of the lower-cased text is the image of a split of the text. *)
Lemma toLowerCase_split (a b t : string) :
  toLowerCase t = a ++ b ->
  exists a' b', t = a' ++ b' /\ toLowerCase a' = a /\ toLowerCase b' = b.
Proof.
  revert t; induction a as [|x a IH]; intros t H.
  - exists "", t. now simpl in *.
  - destruct t as [|c t]; simpl in H; [discriminate|].
    injection H as Hc Ht. destruct (IH _ Ht) as (a' & b' & -> & Ha & Hb).
    exists (String c a'), b'. simpl. now rewrite Hc, Ha, Hb.
Qed.

Lemma startsWith_app (p s : string) : startsWith p (p ++ s) = true.
Proof.
  induction p as [|c p IH]; simpl; [reflexivity|].
  now rewrite Ascii.eqb_refl, IH.
Qed.

Lemma startsWith_inv (p s : string) :
  startsWith p s = true -> exists post, s = p ++ post.
Proof.
  revert s; induction p as [|c p IH]; intros s H.
  - now exists s.
  - destruct s as [|d s]; simpl in H; [discriminate|].
    apply andb_true_iff in H as [Hc Hp]. apply Ascii.eqb_eq in Hc as ->.
    destruct (IH _ Hp) as [post ->]. now exists post.
Qed.

Lemma includes_here (s sub : string) :
  startsWith sub s = true -> includes s sub = true.
Proof. destruct s; simpl; intros ->; reflexivity. Qed.

Lemma includes_app (pre sub post : string) :
  includes (pre ++ sub ++ post) sub = true.
Proof.
  induction pre as [|c pre IH]; simpl.
  - apply includes_here, startsWith_app.
  - rewrite IH. apply orb_true_r.
Qed.

Lemma includes_inv (s sub : string) :
  includes s sub = true -> exists pre post, s = pre ++ sub ++ post.
Proof.
  induction s as [|c s IH]; simpl; intros H.
  - rewrite orb_false_r in H. destruct (startsWith_inv _ _ H) as [post ->].
    now exists "", post.
  - apply orb_true_iff in H as [H | H].
    + destruct (startsWith_inv _ _ H) as [post ->]. now exists "", post.
    + destruct (IH H) as (pre & post & ->). now exists (String c pre), post.
Qed.

(** [lowerQuery.includes(kw)] is case-insensitive containment. *)
Lemma includes_lower_iff (text kw : string) :
  includes (toLowerCase text) kw = true <-> contains_ci text kw.
Proof.
  split.
  - intros H. destruct (includes_inv _ _ H) as (pre & post & E).
    destruct (toLowerCase_split _ _ _ E) as (pre' & r & -> & _ & Er).
    destruct (toLowerCase_split _ _ _ Er) as (mid & post' & -> & Hm & _).
    now exists pre', mid, post'.
  - intros (pre & mid & post & -> & <-).
    rewrite !toLowerCase_app. apply includes_app.
Qed.

Lemma includes_lower_false (text kw : string) :
  ~ contains_ci text kw -> includes (toLowerCase text) kw = false.
Proof.
  intros H. destruct (includes (toLowerCase text) kw) eqn:E; [|reflexivity].
  now apply includes_lower_iff in E.
Qed.

End StringFacts.

(** * Classification *)

(** C5: a text that contains "weather" or "temperature" in any letter case
    is classified as weather, whatever else it contains. *)
Theorem weather_keyword_wins (text : string)
  (H : contains_ci text "weather" \/ contains_ci text "temperature") :
  routeQuery text = Weather.
Proof.
  unfold routeQuery.
  destruct H as [H | H]; apply includes_lower_iff in H; rewrite H.
  - reflexivity.
  - now rewrite orb_true_r.
Qed.

Lemma weather_keyword_wins_witness :
  routeQuery "What is the WEATHER at this time, 2 + 2?" = Weather.
Proof.
  apply weather_keyword_wins. left.
  exists "What is the ", "WEATHER", " at this time, 2 + 2?".
  split; reflexivity.
Defined.

(** * The backtracking matcher *)

Section RegexFacts.

Lemma takeWhile_dropWhile (p : ascii -> bool) (s : string) :
  takeWhile p s ++ dropWhile p s = s.
Proof.
  induction s as [|c s IH]; simpl; [reflexivity|].
  destruct (p c); simpl; [now rewrite IH | reflexivity].
Qed.

Lemma take_app (a b : string) : take (String.length a) (a ++ b) = a.
Proof. induction a as [|c a IH]; simpl; [now destruct b | now rewrite IH]. Qed.

Lemma consumed_app (a b : string) : consumed (a ++ b) b = a.
Proof.
  unfold consumed. rewrite length_append.
  replace (String.length a + String.length b - String.length b)
    with (String.length a) by lia.
  apply take_app.
Qed.

Lemma consumed_dropWhile (p : ascii -> bool) (s : string) :
  consumed s (dropWhile p s) = takeWhile p s.
Proof.
  rewrite <- (takeWhile_dropWhile p s) at 1. apply consumed_app.
Qed.

(** Greedy repetition before a continuation that cannot fail takes the
    maximal run. *)
Lemma star_greedy {R : Type} (p : ascii -> bool) (k : string -> option R) :
  (forall s, k s <> None) ->
  forall s, star p s k = k (dropWhile p s).
Proof.
  intros Hk s. induction s as [|c s IH]; simpl; [reflexivity|].
  destruct (p c); [|reflexivity].
  rewrite IH. destruct (k (dropWhile p s)) eqn:E; [reflexivity|].
  now apply Hk in E.
Qed.

Lemma star_complete {R : Type} (p : ascii -> bool) (k : string -> option R)
      (a b : string) :
  all_chars p a = true -> k b <> None -> star p (a ++ b) k <> None.
Proof.
  intros Ha Hk. induction a as [|c a IH]; simpl in *.
  - destruct b as [|d b]; simpl; [assumption|].
    destruct (p d); [|assumption].
    destruct (star p b k); [discriminate | assumption].
  - apply andb_true_iff in Ha as [Hc Ha]. rewrite Hc.
    specialize (IH Ha). destruct (star p (a ++ b) k); [discriminate|].
    now elim IH.
Qed.

(** Completeness: if [r] can consume [a] and the continuation accepts what
    is left, the matcher succeeds. *)
Lemma rmatch_complete {R : Type} (r : regex) (a : string) :
  lang r a ->
  forall (b : string) (caps : list string)
         (k : string -> list string -> option R),
    (forall caps', k b caps' <> None) ->
    rmatch r (a ++ b) caps k <> None.
Proof.
  induction 1 as [ | p c Hc | r1 r2 a1 a2 _ IH1 _ IH2 | r1 r2 a _ IH
                   | r1 r2 a _ IH | p a Ha | r a _ IH ];
    intros b caps k Hk; simpl.
  - apply Hk.
  - rewrite Hc. apply Hk.
  - rewrite append_assoc. apply IH1. intros caps'. now apply IH2.
  - specialize (IH b caps k Hk).
    destruct (rmatch r1 (a ++ b) caps k); [discriminate | now elim IH].
  - destruct (rmatch r1 (a ++ b) caps k); [discriminate | now apply IH].
  - apply star_complete; [assumption | apply Hk].
  - apply IH. intros caps'. apply Hk.
Qed.

Lemma exec_found (r : regex) (pre s : string) :
  match_here r s <> None -> exec r (pre ++ s) <> None.
Proof.
  intros H. induction pre as [|c pre IH]; simpl.
  - destruct s; simpl; destruct (match_here r _); congruence.
  - destruct (match_here r (String c (pre ++ s))); [discriminate | exact IH].
Qed.

(** A text that contains a string of the language is matched. *)
Lemma test_complete (r : regex) (pre a post : string) :
  lang r a -> test r (pre ++ a ++ post) = true.
Proof.
  intros H. unfold test.
  assert (E : exec r (pre ++ a ++ post) <> None).
  { apply exec_found. unfold match_here. apply rmatch_complete; [exact H|].
    discriminate. }
  destruct (exec r (pre ++ a ++ post)); [reflexivity | now elim E].
Qed.

Lemma lang_plus (p : ascii -> bool) (d : string) :
  d <> "" -> all_chars p d = true -> lang (Plus p) d.
Proof.
  destruct d as [|c d]; [congruence|]. simpl. intros _ H.
  apply andb_true_iff in H as [Hc Hd].
  change (String c d) with (String c "" ++ d).
  apply lang_seq; [now apply lang_class | now apply lang_star].
Qed.

Lemma rmatch_lit {R : Type} (p s : string) (caps : list string)
      (k : string -> list string -> option R) :
  rmatch (lit p) s caps k =
  if startsWith p s then k (drop (String.length p) s) caps else None.
Proof.
  revert s; induction p as [|c p IH]; intros s; simpl.
  - now destruct s.
  - destruct s as [|d s]; [reflexivity|].
    destruct (Ascii.eqb c d); simpl; [apply IH | reflexivity].
Qed.

Lemma truthy_takeWhile (p : ascii -> bool) (s : string) :
  truthy (takeWhile p s) =
  match s with String c _ => p c | EmptyString => false end.
Proof. destruct s as [|c s]; simpl; [reflexivity | now destruct (p c)]. Qed.

(** [p+] before a continuation that cannot fail takes the maximal run. *)
Lemma rmatch_plus {R : Type} (p : ascii -> bool) (s : string)
      (caps : list string) (k : string -> list string -> option R) :
  (forall rest, k rest caps <> None) ->
  rmatch (Plus p) s caps k =
  if truthy (takeWhile p s) then k (dropWhile p s) caps else None.
Proof.
  intros Hk. rewrite truthy_takeWhile.
  destruct s as [|c s]; simpl; [reflexivity|].
  destruct (p c); [|reflexivity].
  apply (star_greedy p (fun s1 => k s1 caps)). intros s1. apply Hk.
Qed.

Lemma rmatch_group_plus {R : Type} (p : ascii -> bool) (s : string)
      (caps : list string) (k : string -> list string -> option R) :
  (forall rest caps', k rest caps' <> None) ->
  rmatch (Group (Plus p)) s caps k =
  if truthy (takeWhile p s)
  then k (dropWhile p s) (caps ++ [takeWhile p s])%list
  else None.
Proof.
  intros Hk. change (rmatch (Group (Plus p)) s caps k)
    with (rmatch (Plus p) s caps
            (fun s1 c1 => k s1 (c1 ++ [consumed s s1])%list)).
  rewrite rmatch_plus by (intros; apply Hk).
  now rewrite consumed_dropWhile.
Qed.

Lemma takeWhile_maximal (p : ascii -> bool) (run rest : string) :
  all_chars p run = true ->
  match rest with String c _ => p c = false | EmptyString => True end ->
  takeWhile p (run ++ rest) = run.
Proof.
  intros Hr Hrest. induction run as [|c run IH]; simpl in *.
  - destruct rest as [|d rest]; [reflexivity|]. simpl. now rewrite Hrest.
  - apply andb_true_iff in Hr as [Hc Hr]. now rewrite Hc, IH.
Qed.

Lemma star_sound {R : Type} (p : ascii -> bool) (k : string -> option R)
      (s : string) (x : R) :
  star p s k = Some x ->
  exists a b, s = a ++ b /\ all_chars p a = true /\ k b = Some x.
Proof.
  induction s as [|c s IH]; simpl; intros H.
  - now exists "", "".
  - destruct (p c) eqn:Hc; [|now exists "", (String c s)].
    destruct (star p s k) as [y|] eqn:E; [|now exists "", (String c s)].
    injection H as ->. destruct (IH eq_refl) as (a & b & -> & Ha & Hb).
    exists (String c a), b. simpl. now rewrite Hc, Ha.
Qed.

(** Soundness: a success of the matcher consumed a string of the language
    and the continuation accepted the rest. *)
Lemma rmatch_sound {R : Type} (r : regex) :
  forall (s : string) (caps : list string)
         (k : string -> list string -> option R) (x : R),
    rmatch r s caps k = Some x ->
    exists a b caps', s = a ++ b /\ lang r a /\ k b caps' = Some x.
Proof.
  induction r as [ | p | r1 IH1 r2 IH2 | r1 IH1 r2 IH2 | p | r IH ];
    intros s caps k x H; simpl in H.
  - exists "", s, caps. repeat split; [constructor | exact H].
  - destruct s as [|c s]; [discriminate|].
    destruct (p c) eqn:Hc; [|discriminate].
    exists (String c ""), s, caps. repeat split; [now constructor | exact H].
  - destruct (IH1 _ _ _ _ H) as (a1 & b1 & c1 & -> & L1 & H1).
    destruct (IH2 _ _ _ _ H1) as (a2 & b2 & c2 & -> & L2 & H2).
    exists (a1 ++ a2), b2, c2. rewrite append_assoc.
    repeat split; [now constructor | exact H2].
  - destruct (rmatch r1 s caps k) as [y|] eqn:E.
    + injection H as ->. destruct (IH1 _ _ _ _ E) as (a & b & c & -> & L & K).
      exists a, b, c. repeat split; [now apply lang_alt_l | exact K].
    + destruct (IH2 _ _ _ _ H) as (a & b & c & -> & L & K).
      exists a, b, c. repeat split; [now apply lang_alt_r | exact K].
  - destruct (star_sound _ _ _ _ H) as (a & b & -> & Ha & K).
    exists a, b, caps. repeat split; [now constructor | exact K].
  - destruct (IH _ _ _ _ H) as (a & b & c & -> & L & K).
    eexists a, b, _. repeat split; [now constructor | exact K].
Qed.

Lemma exec_sound (r : regex) (s : string) (m : MatchResult) :
  exec r s = Some m -> exists pre a post, s = pre ++ a ++ post /\ lang r a.
Proof.
  induction s as [|c s IH]; simpl.
  - destruct (match_here r "") as [y|] eqn:E; [|discriminate]. intros _.
    destruct (rmatch_sound _ _ _ _ _ E) as (a & b & _ & Es & L & _).
    now exists "", a, b.
  - destruct (match_here r (String c s)) as [y|] eqn:E.
    + intros _.
      destruct (rmatch_sound _ _ _ _ _ E) as (a & b & _ & Es & L & _).
      now exists "", a, b.
    + intros H. destruct (IH H) as (pre & a & post & -> & L).
      now exists (String c pre), a, post.
Qed.

(** [r.test(s)] holds exactly when [s] contains a string of the language. *)
Lemma test_iff (r : regex) (s : string) :
  test r s = true <-> exists pre a post, s = pre ++ a ++ post /\ lang r a.
Proof.
  split.
  - unfold test. destruct (exec r s) as [m|] eqn:E; [|discriminate].
    intros _. exact (exec_sound _ _ _ E).
  - intros (pre & a & post & -> & L). now apply test_complete.
Qed.

Lemma lang_seq_inv (r1 r2 : regex) (s : string) :
  lang (Seq r1 r2) s -> exists a b, s = a ++ b /\ lang r1 a /\ lang r2 b.
Proof. inversion 1; subst. now eexists _, _. Qed.

Lemma lang_class_inv (p : ascii -> bool) (s : string) :
  lang (Class p) s -> exists c, s = String c "" /\ p c = true.
Proof. inversion 1; subst. now eexists. Qed.

Lemma lang_star_inv (p : ascii -> bool) (s : string) :
  lang (Star p) s -> all_chars p s = true.
Proof. now inversion 1. Qed.

Lemma lang_plus_inv (p : ascii -> bool) (s : string) :
  lang (Plus p) s -> s <> "" /\ all_chars p s = true.
Proof.
  intros H. destruct (lang_seq_inv _ _ _ H) as (a & b & -> & La & Lb).
  destruct (lang_class_inv _ _ La) as (c & -> & Hc).
  apply lang_star_inv in Lb. simpl. rewrite Hc, Lb. now split.
Qed.

End RegexFacts.

(** * Arithmetic classification *)

Section MathClassification.

(** Lower-casing leaves digits, whitespace and operators alone. *)
Lemma lower_char_fixed (c : ascii) :
  is_digit c || is_space c || is_operator c = true -> lower_char c = c.
Proof.
  destruct c as [[] [] [] [] [] [] [] []]; vm_compute;
    intros H; try discriminate H; reflexivity.
Qed.

Lemma toLowerCase_fixed (p : ascii -> bool) (s : string) :
  (forall c, p c = true -> lower_char c = c) ->
  all_chars p s = true -> toLowerCase s = s.
Proof.
  intros Hp. induction s as [|c s IH]; simpl; [reflexivity|].
  intros H. apply andb_true_iff in H as [Hc Hs].
  now rewrite (Hp _ Hc), IH.
Qed.

Lemma toLowerCase_digits (s : string) :
  all_chars is_digit s = true -> toLowerCase s = s.
Proof.
  apply toLowerCase_fixed. intros c H. apply lower_char_fixed.
  now rewrite H.
Qed.

Lemma toLowerCase_spaces (s : string) :
  all_chars is_space s = true -> toLowerCase s = s.
Proof.
  apply toLowerCase_fixed. intros c H. apply lower_char_fixed.
  rewrite H. now rewrite orb_true_r.
Qed.

Lemma lang_arithmetic (d1 w1 : string) (op : ascii) (w2 d2 : string) :
  d1 <> "" -> all_chars is_digit d1 = true ->
  all_chars is_space w1 = true -> is_operator op = true ->
  all_chars is_space w2 = true ->
  d2 <> "" -> all_chars is_digit d2 = true ->
  lang arithmetic_re (d1 ++ w1 ++ String op (w2 ++ d2)).
Proof.
  intros N1 D1 W1 O W2 N2 D2. unfold arithmetic_re.
  apply lang_seq; [now apply lang_plus|].
  apply lang_seq; [now apply lang_star|].
  change (String op (w2 ++ d2)) with (String op "" ++ (w2 ++ d2)).
  apply lang_seq; [now apply lang_class|].
  apply lang_seq; [now apply lang_star | now apply lang_plus].
Qed.

(** Only a digit, a whitespace character or an operator lower-cases to
    one. *)
Lemma lower_char_reflects (c : ascii) :
  is_digit (lower_char c) || is_space (lower_char c)
  || is_operator (lower_char c) = true ->
  lower_char c = c.
Proof.
  destruct c as [[] [] [] [] [] [] [] []]; vm_compute;
    intros H; try discriminate H; reflexivity.
Qed.

Lemma toLowerCase_reflects (p : ascii -> bool) (x : string) :
  (forall c, p (lower_char c) = true -> lower_char c = c) ->
  all_chars p (toLowerCase x) = true -> toLowerCase x = x.
Proof.
  intros Hp. induction x as [|c x IH]; simpl; [reflexivity|].
  intros H. apply andb_true_iff in H as [Hc Hx].
  now rewrite (Hp _ Hc), IH.
Qed.

Lemma arithmetic_lower (text : string) :
  contains_flat_arithmetic (toLowerCase text) ->
  contains_flat_arithmetic text.
Proof.
  intros (pre & d1 & w1 & op & w2 & d2 & post & E &
          N1 & D1 & W1 & O & W2 & N2 & D2).
  destruct (toLowerCase_split _ _ _ E) as (pre' & t1 & -> & _ & E1).
  destruct (toLowerCase_split _ _ _ E1) as (d1' & t2 & -> & Hd1 & E2).
  destruct (toLowerCase_split _ _ _ E2) as (w1' & t3 & -> & Hw1 & E3).
  destruct t3 as [|op' t4]; [discriminate|]. simpl in E3.
  injection E3 as Hop E4.
  destruct (toLowerCase_split _ _ _ E4) as (w2' & t5 & -> & Hw2 & E5).
  destruct (toLowerCase_split _ _ _ E5) as (d2' & post' & -> & Hd2 & _).
  assert (Fd : forall c, is_digit (lower_char c) = true -> lower_char c = c).
  { intros c H. apply lower_char_reflects. now rewrite H. }
  assert (Fs : forall c, is_space (lower_char c) = true -> lower_char c = c).
  { intros c H. apply lower_char_reflects. rewrite H. now rewrite orb_true_r. }
  assert (X1 : toLowerCase d1' = d1') by
    (apply (toLowerCase_reflects is_digit); [exact Fd | now rewrite Hd1]).
  assert (X2 : toLowerCase w1' = w1') by
    (apply (toLowerCase_reflects is_space); [exact Fs | now rewrite Hw1]).
  assert (X3 : toLowerCase w2' = w2') by
    (apply (toLowerCase_reflects is_space); [exact Fs | now rewrite Hw2]).
  assert (X4 : toLowerCase d2' = d2') by
    (apply (toLowerCase_reflects is_digit); [exact Fd | now rewrite Hd2]).
  assert (X5 : lower_char op' = op').
  { apply lower_char_reflects. rewrite Hop, O. apply orb_true_r. }
  rewrite X1 in Hd1. rewrite X2 in Hw1. rewrite X3 in Hw2.
  rewrite X4 in Hd2. rewrite X5 in Hop. subst d1 w1 w2 d2 op.
  exists pre', d1', w1', op', w2', d2', post'.
  repeat split; assumption.
Qed.

(** The language of the classifier's pattern is the flat pattern. *)
Lemma lang_arithmetic_inv (a : string) :
  lang arithmetic_re a ->
  exists d1 w1 op w2 d2,
    a = d1 ++ w1 ++ String op (w2 ++ d2) /\
    d1 <> "" /\ all_chars is_digit d1 = true /\
    all_chars is_space w1 = true /\ is_operator op = true /\
    all_chars is_space w2 = true /\
    d2 <> "" /\ all_chars is_digit d2 = true.
Proof.
  unfold arithmetic_re. intros H.
  destruct (lang_seq_inv _ _ _ H) as (d1 & r1 & -> & L1 & H1).
  destruct (lang_seq_inv _ _ _ H1) as (w1 & r2 & -> & L2 & H2).
  destruct (lang_seq_inv _ _ _ H2) as (o & r3 & -> & L3 & H3).
  destruct (lang_seq_inv _ _ _ H3) as (w2 & d2 & -> & L4 & L5).
  destruct (lang_class_inv _ _ L3) as (op & -> & O).
  apply lang_plus_inv in L1 as [N1 D1]. apply lang_plus_inv in L5 as [N2 D2].
  apply lang_star_inv in L2. apply lang_star_inv in L4.
  exists d1, w1, op, w2, d2. repeat split; assumption.
Qed.

(** The classifier's test, in words. *)
Lemma test_arithmetic_iff (text : string) :
  test arithmetic_re (toLowerCase text) = true <->
  contains_flat_arithmetic text.
Proof.
  split.
  - intros H. apply arithmetic_lower. apply test_iff in H.
    destruct H as (pre & a & post & E & L).
    destruct (lang_arithmetic_inv _ L)
      as (d1 & w1 & op & w2 & d2 & -> & N1 & D1 & W1 & O & W2 & N2 & D2).
    exists pre, d1, w1, op, w2, d2, post. rewrite E.
    repeat split; try assumption.
    rewrite !append_assoc. simpl. now rewrite !append_assoc.
  - intros (pre & d1 & w1 & op & w2 & d2 & post & -> &
            N1 & D1 & W1 & O & W2 & N2 & D2).
    assert (E : toLowerCase (pre ++ d1 ++ w1 ++ String op (w2 ++ d2 ++ post))
                = toLowerCase pre ++ (d1 ++ w1 ++ String op (w2 ++ d2))
                  ++ toLowerCase post).
    { rewrite !toLowerCase_app. simpl. rewrite !toLowerCase_app.
      rewrite (toLowerCase_digits _ D1), (toLowerCase_digits _ D2),
              (toLowerCase_spaces _ W1), (toLowerCase_spaces _ W2).
      rewrite (lower_char_fixed op) by (rewrite O; apply orb_true_r).
      rewrite !append_assoc. simpl. now rewrite !append_assoc. }
    rewrite E. apply test_complete. now apply lang_arithmetic.
Qed.

(** Exactly the texts without weather or time keyword that contain the flat
    pattern are classified as math. *)
Lemma math_classification_iff (text : string) :
  routeQuery text = Math <->
  no_weather_or_time_keyword text /\ contains_flat_arithmetic text.
Proof.
  unfold routeQuery, no_weather_or_time_keyword.
  rewrite <- test_arithmetic_iff, <- !includes_lower_iff.
  destruct (includes (toLowerCase text) "weather");
    [cbn; intuition discriminate|].
  destruct (includes (toLowerCase text) "temperature");
    [cbn; intuition discriminate|].
  destruct (includes (toLowerCase text) "time");
    [cbn; intuition discriminate|].
  destruct (includes (toLowerCase text) "date");
    [cbn; intuition discriminate|].
  cbn [orb]. cbv iota.
  destruct (test arithmetic_re (toLowerCase text)).
  - intuition discriminate.
  - destruct (_ || _ || _); intuition discriminate.
Qed.

End MathClassification.

(** A text without weather or time keyword that contains digits, optional
    whitespace, an operator among + - * /, optional whitespace and digits is
    classified as math. *)
Lemma flat_arithmetic_is_math (text : string)
  (Hk : no_weather_or_time_keyword text)
  (Hp : contains_flat_arithmetic text) :
  routeQuery text = Math.
Proof.
  destruct Hk as (K1 & K2 & K3 & K4).
  assert (T : test arithmetic_re (toLowerCase text) = true)
    by now apply test_arithmetic_iff.
  unfold routeQuery.
  rewrite (includes_lower_false _ _ K1), (includes_lower_false _ _ K2),
          (includes_lower_false _ _ K3), (includes_lower_false _ _ K4).
  cbn [orb]. cbv iota. now rewrite T.
Qed.

Section NestedArithmetic.

(** The flat pattern stays in a text that is extended on either side. *)
Lemma contains_flat_extend (p x q : string) :
  contains_flat_arithmetic x -> contains_flat_arithmetic (p ++ x ++ q).
Proof.
  intros (pre & d1 & w1 & op & w2 & d2 & post & -> &
          N1 & D1 & W1 & O & W2 & N2 & D2).
  exists (p ++ pre), d1, w1, op, w2, d2, (post ++ q).
  repeat split; try assumption.
  rewrite !append_assoc. simpl. now rewrite !append_assoc.
Qed.

(** Every expression of the nested pattern has an innermost operation, and
    that one is flat: digits, an operator, digits. *)
Lemma arithmetic_contains_flat (e : string) :
  arithmetic e -> contains_flat_arithmetic e.
Proof.
  apply (arithmetic_mutual
           (fun e => contains_flat_arithmetic e)
           (fun o => (o <> "" /\ all_chars is_digit o = true) \/
                     contains_flat_arithmetic o)).
  - intros a w1 op w2 b _ [[Na Da] | Fa] W1 O W2 _ [[Nb Db] | Fb].
    + exists "", a, w1, op, w2, b, "". rewrite append_nil_r.
      repeat split; assumption.
    + replace (a ++ w1 ++ String op (w2 ++ b))
        with ((a ++ w1 ++ String op w2) ++ b ++ "").
      * now apply contains_flat_extend.
      * rewrite append_nil_r, !append_assoc. reflexivity.
    + now apply (contains_flat_extend "" a (w1 ++ String op (w2 ++ b))).
    + now apply (contains_flat_extend "" a (w1 ++ String op (w2 ++ b))).
  - intros d N D. left. now split.
  - intros w1 e0 w2 W1 _ F W2. right.
    replace ("(" ++ w1 ++ e0 ++ w2 ++ ")")
      with (("(" ++ w1) ++ e0 ++ (w2 ++ ")"))
      by now rewrite !append_assoc.
    now apply contains_flat_extend.
Qed.

End NestedArithmetic.

(** C6: a text without weather or time keyword that contains an arithmetic
    expression -- digits, an operator among + - * /, digits, with optional
    whitespace around the operator, the operands possibly expressions of
    the same kind in parentheses -- is classified as math. *)
Theorem arithmetic_pattern_is_math (text : string)
  (Hk : no_weather_or_time_keyword text)
  (Hp : contains_nested_arithmetic text) :
  routeQuery text = Math.
Proof.
  destruct Hp as (pre & e & post & -> & He).
  apply math_classification_iff. split; [exact Hk|].
  apply contains_flat_extend. now apply arithmetic_contains_flat.
Qed.

Lemma arithmetic_pattern_is_math_witness :
  routeQuery "What is (12 * 3) + ( 4-1 )?" = Math.
Proof.
  apply arithmetic_pattern_is_math.
  - repeat split; intros H; apply includes_lower_iff in H; vm_compute in H;
    discriminate H.
  - exists "What is ", "(12 * 3) + ( 4-1 )", "?". split; [reflexivity|].
    apply (arithmetic_binary "(12 * 3)" " " "+"%char " " "( 4-1 )");
      try reflexivity.
    + apply (operand_nested "" "12 * 3" ""); try reflexivity.
      apply (arithmetic_binary "12" " " "*"%char " " "3"); try reflexivity;
        apply operand_digits; (discriminate || reflexivity).
    + apply (operand_nested " " "4-1" " "); try reflexivity.
      apply (arithmetic_binary "4" "" "-"%char "" "1"); try reflexivity;
        apply operand_digits; (discriminate || reflexivity).
Defined.

(** The flat pattern alone, without any parentheses, is such a text. *)
Lemma flat_arithmetic_example : routeQuery "What is 12 * 3?" = Math.
Proof.
  apply flat_arithmetic_is_math.
  - repeat split; intros H; apply includes_lower_iff in H; vm_compute in H;
    discriminate H.
  - exists "What is ", "12", " ", "*"%char, " ", "3", "?".
    repeat split; discriminate.
Qed.

(** * Location extraction *)

Section LocationExtraction.

Lemma match_here_location (s : string) :
  match_here location_re s =
  if startsWith "in " s && truthy (takeWhile is_letter_or_space (drop 3 s))
  then Some (mkMatch ("in " ++ takeWhile is_letter_or_space (drop 3 s))
                     [takeWhile is_letter_or_space (drop 3 s)])
  else None.
Proof.
  unfold match_here, location_re.
  change (rmatch (Seq ?a ?b) s [] ?k)
    with (rmatch a s [] (fun s1 c1 => rmatch b s1 c1 k)).
  rewrite rmatch_lit.
  destruct (startsWith "in " s) eqn:E; [|reflexivity].
  rewrite rmatch_group_plus by discriminate.
  destruct (startsWith_inv _ _ E) as [post ->].
  change (drop (String.length "in ") ("in " ++ post)) with post.
  change (drop 3 ("in " ++ post)) with post.
  destruct (truthy (takeWhile is_letter_or_space post)); [|reflexivity].
  cbn [andb]. cbv iota. f_equal. f_equal.
  rewrite <- (takeWhile_dropWhile is_letter_or_space post) at 1.
  rewrite <- append_assoc. apply consumed_app.
Qed.

Lemma exec_location (s : string) :
  exec location_re s =
  match run_after_usable_in s with
  | Some run => Some (mkMatch ("in " ++ run) [run])
  | None => None
  end.
Proof.
  induction s as [|c s IH].
  - reflexivity.
  - cbn [exec run_after_usable_in]. rewrite match_here_location.
    destruct (startsWith "in " (String c s)
              && truthy (takeWhile is_letter_or_space (drop 3 (String c s))));
      [reflexivity | exact IH].
Qed.

Lemma run_after_usable_in_truthy (s run : string) :
  run_after_usable_in s = Some run -> truthy run = true.
Proof.
  induction s as [|c s IH]; [discriminate|].
  cbn [run_after_usable_in].
  destruct (startsWith "in " (String c s)) eqn:E; cbn [andb]; [|exact IH].
  destruct (truthy (takeWhile is_letter_or_space (drop 3 (String c s)))) eqn:T; [|exact IH].
  now intros [= <-].
Qed.

(** The regular expression computes the run after the first usable "in ". *)
Lemma extract_location_spec (msg : string) :
  extract_location msg = location_after_usable_in msg.
Proof.
  unfold extract_location, location_after_usable_in.
  rewrite exec_location.
  destruct (run_after_usable_in msg) as [run|] eqn:E; [|reflexivity].
  simpl. now rewrite (run_after_usable_in_truthy _ _ E).
Qed.

(** No "in " directly followed by a letter or whitespace: no location. *)
Lemma run_after_usable_in_none (msg : string) :
  (forall pre c post,
      msg = pre ++ "in " ++ String c post -> is_letter_or_space c = false) ->
  run_after_usable_in msg = None.
Proof.
  induction msg as [|a s IH]; intros H; [reflexivity|].
  assert (IH' : run_after_usable_in s = None).
  { apply IH. intros pre c post ->. now apply (H (String a pre) c post). }
  cbn [run_after_usable_in].
  destruct (startsWith "in " (String a s)) eqn:E; cbn [andb]; [|exact IH'].
  destruct (startsWith_inv _ _ E) as [post Ep].
  assert (D : drop 3 (String a s) = post) by now rewrite Ep.
  rewrite D, truthy_takeWhile. destruct post as [|c post]; [exact IH'|].
  now rewrite (H "" c post Ep).
Qed.

(** The run after the first usable "in ", stated on the text itself. *)
Lemma run_after_usable_in_first (pre run rest : string) :
  run <> "" -> all_chars is_letter_or_space run = true ->
  match rest with String c _ => is_letter_or_space c = false | EmptyString => True end ->
  (forall p c q,
      pre ++ "in " ++ run ++ rest = p ++ "in " ++ String c q ->
      is_letter_or_space c = true -> String.length pre <= String.length p) ->
  run_after_usable_in (pre ++ "in " ++ run ++ rest) = Some run.
Proof.
  intros Hne Hrun Hrest. induction pre as [|a pre IH]; intros Hfirst.
  - change ("" ++ "in " ++ run ++ rest) with (String "i" ("n " ++ run ++ rest)).
    cbn [run_after_usable_in].
    change (String "i" ("n " ++ run ++ rest)) with ("in " ++ run ++ rest).
    rewrite startsWith_app.
    change (drop 3 ("in " ++ run ++ rest)) with (run ++ rest).
    rewrite (takeWhile_maximal is_letter_or_space run rest Hrun Hrest).
    destruct run; [congruence | reflexivity].
  - assert (IH' : run_after_usable_in (pre ++ "in " ++ run ++ rest)
                  = Some run).
    { apply IH. intros p c q E Hc.
      assert (L : String.length (String a pre) <= String.length (String a p)).
      { apply (Hfirst (String a p) c q); [|exact Hc].
        exact (f_equal (String a) E). }
      simpl in L. lia. }
    change (String a pre ++ "in " ++ run ++ rest)
      with (String a (pre ++ "in " ++ run ++ rest)) in *.
    cbn [run_after_usable_in].
    set (s := String a (pre ++ "in " ++ run ++ rest)) in *.
    destruct (startsWith "in " s) eqn:E; cbn [andb]; [|exact IH'].
    destruct (startsWith_inv _ _ E) as [post Ep].
    assert (D : drop 3 s = post) by now rewrite Ep.
    rewrite D, truthy_takeWhile. destruct post as [|c post]; [exact IH'|].
    destruct (is_letter_or_space c) eqn:Hc; [|exact IH'].
    assert (L := Hfirst "" c post Ep Hc). simpl in L. lia.
Qed.

End LocationExtraction.

(** * Running the handlers *)

Section Handlers.

Variable w : World.

Lemma getWeather_run (loc : string) :
  getWeather (Some loc) w =
  match geocode w loc with
  | Ok (Some (place :: _)) =>
      match forecast w (latitude place) (longitude place) with
      | Ok (Some weather) =>
          (Ok ("The weather in " ++ name place ++ " is "
               ++ temperature weather ++ degree ++ "C with wind speed "
               ++ windspeed weather ++ " km/h."),
           [CallGeocode loc;
            CallForecast (latitude place) (longitude place)])
      | _ =>
          (Ok "Unable to fetch weather at the moment.",
           [CallGeocode loc;
            CallForecast (latitude place) (longitude place)])
      end
  | Ok _ => (Ok "Weather location not found.", [CallGeocode loc])
  | Err _ => (Ok "Unable to fetch weather at the moment.", [CallGeocode loc])
  end.
Proof.
  unfold getWeather, try_catch, bind, axios_geocode, axios_forecast, perform.
  simpl. destruct (geocode w loc) as [[[|place l]|]|e]; try reflexivity.
  simpl. destruct (forecast w _ _) as [[cw|]|e]; reflexivity.
Qed.

Lemma searchWikipedia_run (topic : string) :
  searchWikipedia topic w =
  (Ok match wikipedia w topic with
      | Ok extract => or_else extract "No information found."
      | Err _ => "Unable to find information."
      end, [CallWikipedia topic]).
Proof.
  unfold searchWikipedia, try_catch, bind, axios_wikipedia, perform.
  destruct (wikipedia w topic); reflexivity.
Qed.

Lemma searchDuckDuckGo_run (q : string) :
  searchDuckDuckGo q w =
  (Ok match duckduckgo w q with
      | Ok data => or_else (AbstractText data)
                           (or_else (Answer data) "No results found.")
      | Err _ => "Search unavailable."
      end, [CallDuckDuckGo q]).
Proof.
  unfold searchDuckDuckGo, try_catch, bind, axios_duckduckgo, perform.
  destruct (duckduckgo w q); reflexivity.
Qed.

Lemma math_run (msg : string) :
  dispatch Math msg w =
  match exec expression_re msg with
  | Some m =>
      (match js_eval w (matched m) with
       | Ok v => Ok ("The answer is: " ++ v)
       | Err _ => Ok "Could not calculate that."
       end, [CallEval (matched m)])
  | None => (Ok "Could not calculate that.", [])
  end.
Proof.
  unfold dispatch, extract_expression, try_catch, bind, eval, perform.
  destruct (exec expression_re msg) as [m|]; [|reflexivity].
  simpl. destruct (js_eval w (matched m)); reflexivity.
Qed.

Lemma general_run (msg : string) :
  dispatch General msg w =
  (Ok (let response :=
         match duckduckgo w msg with
         | Ok data => or_else (AbstractText data)
                              (or_else (Answer data) "No results found.")
         | Err _ => "Search unavailable."
         end in
       if negb (truthy response) || String.eqb response "No results found."
       then acknowledgment msg else response),
   [CallDuckDuckGo msg]).
Proof.
  unfold dispatch, bind. rewrite searchDuckDuckGo_run. cbv zeta.
  destruct (negb _ || _); reflexivity.
Qed.

(** No resolver throws outward: the switch always produces a text. *)
Lemma dispatch_total (qt : Intent) (msg : string) :
  exists r, result (dispatch qt msg) w = Ok r.
Proof.
  unfold result. destruct qt.
  - cbn [dispatch]. rewrite getWeather_run.
    destruct (geocode w _) as [[[|place l]|]|e]; try (eexists; reflexivity).
    destruct (forecast w _ _) as [[cw|]|e]; eexists; reflexivity.
  - eexists; reflexivity.
  - rewrite math_run. destruct (exec _ _) as [m|]; [|eexists; reflexivity].
    destruct (js_eval w _); eexists; reflexivity.
  - cbn [dispatch]. rewrite searchWikipedia_run. eexists; reflexivity.
  - rewrite general_run. eexists; reflexivity.
Qed.

(** The chat handler after validation: the answer of the switch, then the
    write to the database when it is connected. *)
Lemma chat_run (uid : option string) (msg r : string) (t : list call) :
  msg <> "" ->
  dispatch (routeQuery msg) msg w = (Ok r, t) ->
  chat (mkBody uid (Some msg)) w =
  let doc := mkChat (default_to "anonymous" uid) msg r in
  if db_ready w then
    match db_save w doc with
    | Ok _ => (Ok (ChatOk r (Some (routeQuery msg))), t ++ [CallSave doc])%list
    | Err e =>
        (Ok (ErrorReply 500 "Server error" (Some (err_message e))),
         (t ++ [CallSave doc]) ++ [CallConsoleError "Chat error:" e])%list
    end
  else (Ok (ChatOk r (Some (routeQuery msg))), t ++ [])%list.
Proof.
  intros Hne Hd. destruct msg as [|c msg']; [congruence|].
  unfold chat, try_catch, bind, connection_ready, chat_save, console_error,
    perform, ret.
  cbn [message userId]. rewrite Hd. cbv zeta.
  destruct (db_ready w); [|reflexivity].
  destruct (db_save w _); reflexivity.
Qed.

End Handlers.

(** * The math resolver *)

Section ExpressionExtraction.

Lemma match_here_expression (s : string) :
  match_here expression_re s =
  if truthy (takeWhile is_expression_char s)
  then Some (mkMatch (takeWhile is_expression_char s) [])
  else None.
Proof.
  unfold match_here, expression_re.
  rewrite rmatch_plus by discriminate.
  now rewrite consumed_dropWhile.
Qed.

(** The pattern extracts the first maximal run of expression characters,
    wherever it starts. *)
Lemma exec_expression (s : string) :
  exec expression_re s =
  match first_expression_run s with
  | Some run => Some (mkMatch run [])
  | None => None
  end.
Proof.
  induction s as [|c s IH]; [reflexivity|].
  cbn [exec first_expression_run]. rewrite match_here_expression.
  rewrite truthy_takeWhile.
  destruct (is_expression_char c); [reflexivity | exact IH].
Qed.

Lemma first_expression_run_found (pre : string) (c : ascii) (rest : string) :
  is_expression_char c = true ->
  first_expression_run (pre ++ String c rest) <> None.
Proof.
  intros Hc. induction pre as [|a pre IH]; simpl.
  - now rewrite Hc.
  - destruct (is_expression_char a); [discriminate | exact IH].
Qed.

(** A message classified as math always has an expression to extract. *)
Lemma math_message_has_expression (msg : string) :
  routeQuery msg = Math -> exists run, first_expression_run msg = Some run.
Proof.
  intros H. apply math_classification_iff in H as [_ H].
  destruct H as (pre & d1 & w1 & op & w2 & d2 & post & -> & N1 & D1 & _).
  destruct d1 as [|c d1]; [congruence|]. simpl in D1.
  apply andb_true_iff in D1 as [Hc _].
  assert (E : is_expression_char c = true).
  { unfold is_expression_char. now rewrite Hc. }
  assert (F := first_expression_run_found pre c
                 (d1 ++ w1 ++ String op (w2 ++ d2 ++ post)) E).
  change (String c d1 ++ w1 ++ String op (w2 ++ d2 ++ post))
    with (String c (d1 ++ w1 ++ String op (w2 ++ d2 ++ post))).
  destruct (first_expression_run _) as [run|]; [now exists run | now elim F].
Qed.

End ExpressionExtraction.

(** C1 (the code at "What is 2 + 2?"): the message is classified as math,
    but the expression pattern first matches the blank after "What", so
    [eval] is given that blank and never "2 + 2"; the answer is built from
    whatever [eval] makes of a blank. *)
Theorem math_expression_is_first_blank (w : World) :
  routeQuery "What is 2 + 2?" = Math /\
  exec expression_re "What is 2 + 2?" = Some (mkMatch " " []) /\
  dispatch Math "What is 2 + 2?" w =
    (match js_eval w " " with
     | Ok v => Ok ("The answer is: " ++ v)
     | Err _ => Ok "Could not calculate that."
     end, [CallEval " "]).
Proof.
  split; [reflexivity | split; [reflexivity|]].
  rewrite math_run. reflexivity.
Qed.

(** An expression at the very start of the message is extracted whole. *)
Lemma math_expression_leading :
  exec expression_re "2 + 2" = Some (mkMatch "2 + 2" []).
Proof. reflexivity. Qed.

(** For a math message the answer is built from [eval] of the first run of
    expression characters, and is the sentinel when [eval] throws. *)
Lemma math_answer (w : World) (msg : string) :
  routeQuery msg = Math ->
  exists run,
    first_expression_run msg = Some run /\
    dispatch (routeQuery msg) msg w =
    (match js_eval w run with
     | Ok v => Ok ("The answer is: " ++ v)
     | Err _ => Ok "Could not calculate that."
     end, [CallEval run]).
Proof.
  intros H. destruct (math_message_has_expression msg H) as [run E].
  exists run. split; [exact E|].
  now rewrite H, math_run, exec_expression, E.
Qed.

(** When nothing can be extracted, or [eval] throws on what was extracted,
    the answer is the sentinel; nothing is thrown outward. *)
Lemma math_failure_sentinel (w : World) (msg : string) :
  match exec expression_re msg with
  | Some m => exists e, js_eval w (matched m) = Err e
  | None => True
  end ->
  result (dispatch Math msg) w = Ok "Could not calculate that.".
Proof.
  unfold result. rewrite math_run.
  destruct (exec expression_re msg) as [m|]; [|reflexivity].
  now intros [e ->].
Qed.

(** * The general resolver *)

Section GeneralResolver.

Variable w : World.

Lemma acknowledgment_echoes (msg : string) :
  exists pre post, acknowledgment msg = pre ++ msg ++ post.
Proof.
  exists ("I received your message: " ++ quote),
         (quote ++ ". I'm working on understanding more complex queries!").
  unfold acknowledgment. now rewrite !append_assoc.
Qed.

Lemma acknowledgment_nonempty (msg : string) : acknowledgment msg <> "".
Proof. discriminate. Qed.

(** An empty search answer is replaced by the acknowledgment. *)
Lemma general_empty_acknowledged (msg : string) :
  search_empty w msg ->
  result (dispatch General msg) w = Ok (acknowledgment msg).
Proof.
  intros (data & E & Ha & Hb). unfold result. rewrite general_run, E.
  destruct data as [[a|] [b|]]; simpl in *; try rewrite Ha; try rewrite Hb;
    reflexivity.
Qed.

(** A failed search is answered by the search's own sentinel. *)
Lemma general_failure_sentinel (msg : string) :
  search_fails w msg ->
  result (dispatch General msg) w = Ok "Search unavailable.".
Proof.
  intros [e E]. unfold result. now rewrite general_run, E.
Qed.

Lemma or_else_truthy (a : option string) (d : string) :
  truthy d = true -> truthy (or_else a d) = true.
Proof.
  intros Hd. destruct a as [x|]; simpl; [|exact Hd].
  destruct (truthy x) eqn:E; assumption.
Qed.

(** The general answer is never the empty string. *)
Lemma general_answer_nonempty (msg r : string) :
  result (dispatch General msg) w = Ok r -> r <> "".
Proof.
  unfold result. rewrite general_run. cbv zeta. cbn [fst].
  set (response := match duckduckgo w msg with
                   | Ok data => _ | Err _ => _ end).
  destruct (truthy response) eqn:T; cbn [negb orb].
  - destruct (String.eqb response "No results found.").
    + intros [= <-]. discriminate.
    + intros [= <-]. intros ->. discriminate T.
  - intros [= <-]. discriminate.
Qed.

End GeneralResolver.

(** C3 (the code when the search fails): for a general message the answer
    is then "Search unavailable.", not the acknowledgment of the message. *)
Theorem general_search_failure_answer :
  routeQuery "hello there" = General /\
  search_fails search_down_world "hello there" /\
  chat (mkBody None (Some "hello there")) search_down_world =
    (Ok (ChatOk "Search unavailable." (Some General)),
     [CallDuckDuckGo "hello there"]).
Proof.
  split; [reflexivity | split; [|reflexivity]].
  now exists network_error.
Qed.

(** * Validation *)

(** C7: in both servers a request whose message is missing or empty gets the
    400 reply "Message is required" and nothing at all is called: no
    resolver, no service, no write to the database. *)
Theorem missing_message_rejected (w : World) (body : ChatBody)
  (H : message body = None \/ message body = Some "") :
  RuleRouted.chat body w =
    (Ok (ErrorReply 400 "Message is required" None), []) /\
  ModelAugmented.chat body w =
    (Ok (ErrorReply 400 "Message is required" None), []).
Proof.
  unfold RuleRouted.chat, ModelAugmented.chat, try_catch.
  destruct H as [-> | ->]; split; reflexivity.
Qed.

Lemma missing_message_rejected_witness :
  RuleRouted.chat (mkBody (Some "ada") (Some "")) failing_db_world =
    (Ok (ErrorReply 400 "Message is required" None), []) /\
  ModelAugmented.chat (mkBody (Some "ada") (Some "")) failing_db_world =
    (Ok (ErrorReply 400 "Message is required" None), []).
Proof.
  apply (missing_message_rejected failing_db_world
           (mkBody (Some "ada") (Some ""))).
  right. reflexivity.
Defined.

(** * Persistence *)




(** * One resolver per answer *)

Section SingleSource.

Variable w : World.

(** The weather resolver starts by geocoding the location it was given. *)
Lemma getWeather_geocodes_first (loc : string) :
  exists r t, getWeather (Some loc) w = (Ok r, CallGeocode loc :: t).
Proof.
  rewrite getWeather_run.
  destruct (geocode w loc) as [[[|place l]|]|e];
    try (do 2 eexists; reflexivity).
  destruct (forecast w _ _) as [[cw|]|e]; do 2 eexists; reflexivity.
Qed.

(** Each case of the switch returns the value of its own resolver and calls
    nothing that belongs to another one. *)
Lemma dispatch_source (qt : Intent) (msg r : string) (t : list call) :
  dispatch qt msg w = (Ok r, t) ->
  answer_source w msg qt r /\
  Forall (fun c => call_owner c = Some qt) t.
Proof.
  destruct qt.
  - intros H. split.
    + apply (from_weather w msg (extract_location msg)).
      unfold result. cbn [dispatch] in H. now rewrite H.
    + cbn [dispatch] in H. rewrite getWeather_run in H.
      destruct (geocode w _) as [[[|place l]|]|e];
        try (injection H as _ <-; repeat constructor).
      destruct (forecast w _ _) as [[cw|]|e];
        injection H as _ <-; repeat constructor.
  - intros [= <- <-]. split; [constructor | repeat constructor].
  - rewrite math_run. destruct (exec expression_re msg) as [m|].
    + destruct (js_eval w (matched m)) as [v|e] eqn:E; intros [= <- <-].
      * split; [now apply (from_eval w msg (matched m)) | repeat constructor].
      * split; [constructor | repeat constructor].
    + intros [= <- <-]. split; constructor.
  - cbn [dispatch]. intros H. split.
    + apply (from_wikipedia w msg (extract_topic msg)).
      unfold result. now rewrite H.
    + rewrite searchWikipedia_run in H. injection H as _ <-.
      repeat constructor.
  - rewrite general_run. cbv zeta. intros [= Hr <-].
    split; [|repeat constructor].
    destruct (negb _ || _) in Hr; subst r.
    + apply from_acknowledgment.
    + apply from_search. unfold result. now rewrite searchDuckDuckGo_run.
Qed.

End SingleSource.

(** C9: the text of a successful reply is the value returned by the one
    resolver that the message's intent selects, or the canned acknowledgment
    in the general case; and every call made for the request belongs to
    that resolver, to persistence or to logging. *)
Theorem single_source_answer
  (w : World) (uid : option string) (msg r : string) (qt : option Intent)
  (H : result (chat (mkBody uid (Some msg))) w = Ok (ChatOk r qt)) :
  qt = Some (routeQuery msg) /\
  answer_source w msg (routeQuery msg) r /\
  Forall (fun c => call_owner c = None \/
                   call_owner c = Some (routeQuery msg))
         (trace (chat (mkBody uid (Some msg))) w).
Proof.
  assert (Hne : msg <> "").
  { intros ->. discriminate H. }
  destruct (dispatch (routeQuery msg) msg w) as [[r0|e] t] eqn:D.
  2:{ destruct (dispatch_total w (routeQuery msg) msg) as [r1 H1].
      unfold result in H1. rewrite D in H1. discriminate H1. }
  destruct (dispatch_source w _ _ _ _ D) as [Hsrc Hown].
  assert (Hown' : Forall (fun c => call_owner c = None \/
                                   call_owner c = Some (routeQuery msg)) t).
  { eapply Forall_impl; [|exact Hown]. intros c Hc. now right. }
  unfold result, trace in *. rewrite (chat_run w uid msg r0 t Hne D) in *.
  cbv zeta in *. destruct (db_ready w).
  - destruct (db_save w _) as [u|e]; cbn [fst snd] in *; [|discriminate H].
    injection H as <- <-. repeat split; [exact Hsrc|].
    apply Forall_app. split; [exact Hown'|]. repeat constructor.
  - cbn [fst snd] in *. injection H as <- <-. repeat split; [exact Hsrc|].
    apply Forall_app. split; [exact Hown' | constructor].
Qed.

Lemma single_source_answer_witness :
  Some Weather = Some (routeQuery "weather in Atlantis") /\
  answer_source london_only_world "weather in Atlantis"
    (routeQuery "weather in Atlantis") "Weather location not found." /\
  Forall (fun c => call_owner c = None \/
                   call_owner c = Some (routeQuery "weather in Atlantis"))
         (trace (chat (mkBody None (Some "weather in Atlantis")))
                london_only_world).
Proof.
  apply (single_source_answer london_only_world None "weather in Atlantis"
           "Weather location not found." (Some Weather)).
  reflexivity.
Defined.

(** * The weather resolver's location *)

(** C10 (as amended): for a weather message the location given to the
    geocoder is the maximal run of letters and whitespace after the first
    "in " that is directly followed by a letter or a whitespace character,
    and "London" when the original message has no such "in ". *)
Theorem location_sent_to_geocoder
  (w : World) (uid : option string) (msg : string)
  (Hw : routeQuery msg = Weather) :
  extract_location msg = location_after_usable_in msg /\
  exists t,
    trace (chat (mkBody uid (Some msg))) w =
    CallGeocode (location_after_usable_in msg) :: t.
Proof.
  split; [apply extract_location_spec|].
  assert (Hne : msg <> "") by (intros ->; discriminate Hw).
  destruct (getWeather_geocodes_first w (extract_location msg))
    as (r & t & G).
  assert (D : dispatch (routeQuery msg) msg w
              = (Ok r, CallGeocode (extract_location msg) :: t)).
  { rewrite Hw. exact G. }
  unfold trace. rewrite (chat_run w uid msg r _ Hne D). cbv zeta.
  rewrite <- extract_location_spec.
  destruct (db_ready w); [|eexists; reflexivity].
  destruct (db_save w _); eexists; reflexivity.
Qed.

Lemma location_sent_to_geocoder_witness :
  extract_location "WEATHER IN PARIS? in Rome today" = "Rome today" /\
  exists t,
    trace (chat (mkBody None (Some "WEATHER IN PARIS? in Rome today")))
          london_only_world
    = CallGeocode "Rome today" :: t.
Proof.
  apply (location_sent_to_geocoder london_only_world None
           "WEATHER IN PARIS? in Rome today").
  reflexivity.
Defined.

(** The location in the words of the text: the run [run] after an "in "
    such that no earlier "in " is followed by a letter or whitespace. *)
Lemma location_is_first_usable_run (pre run rest : string) :
  run <> "" -> all_chars is_letter_or_space run = true ->
  match rest with
  | String c _ => is_letter_or_space c = false
  | EmptyString => True
  end ->
  (forall p c q,
      pre ++ "in " ++ run ++ rest = p ++ "in " ++ String c q ->
      is_letter_or_space c = true -> String.length pre <= String.length p) ->
  extract_location (pre ++ "in " ++ run ++ rest) = run.
Proof.
  intros Hne Hrun Hrest Hfirst. rewrite extract_location_spec.
  unfold location_after_usable_in.
  now rewrite (run_after_usable_in_first pre run rest Hne Hrun Hrest Hfirst).
Qed.

(** The pattern is case-sensitive, and words after the place name are part
    of the run. *)
Lemma location_examples :
  extract_location "WEATHER IN PARIS" = "London" /\
  extract_location "weather" = "London" /\
  extract_location "weather in Paris today please" = "Paris today please" /\
  extract_location "Berlin weather" = "weather".
Proof. repeat split. Qed.

(** C10 (as stated) fails: the first "in " may be followed by something
    that is no letter, and a later "in " then gives the location. *)
Lemma location_skips_unusable_in :
  routeQuery "weather in 5 in Paris" = Weather /\
  after_first "in " "weather in 5 in Paris" = Some "5 in Paris" /\
  location_after_first_in "weather in 5 in Paris" = "London" /\
  extract_location "weather in 5 in Paris" = "Paris".
Proof. repeat split. Qed.

(** C2 (as amended): "weather in Paris" gives the location "Paris"; a
    weather message without an "in " that is followed by a letter or
    whitespace is resolved for "London"; and when the geocoder has no match
    for a location the resolver answers "Weather location not found." after
    that one lookup, without trying "London". *)
Theorem weather_location_selection
  (w : World) (msg loc : string)
  (Hw : routeQuery msg = Weather)
  (Hno : forall pre c post,
      msg = pre ++ "in " ++ String c post -> is_letter_or_space c = false)
  (Hgeo : geocode w loc = Ok None \/ geocode w loc = Ok (Some [])) :
  extract_location "weather in Paris" = "Paris" /\
  extract_location msg = "London" /\
  dispatch (routeQuery msg) msg = getWeather (Some "London") /\
  getWeather (Some loc) w =
    (Ok "Weather location not found.", [CallGeocode loc]).
Proof.
  assert (E : extract_location msg = "London").
  { rewrite extract_location_spec. unfold location_after_usable_in.
    now rewrite (run_after_usable_in_none msg Hno). }
  split; [reflexivity | split; [exact E | split]].
  - rewrite Hw. cbn [dispatch]. now rewrite E.
  - rewrite getWeather_run. now destruct Hgeo as [-> | ->].
Qed.

Lemma weather_location_selection_witness :
  extract_location "weather in Paris" = "Paris" /\
  extract_location "Temperature IN PARIS" = "London" /\
  dispatch (routeQuery "Temperature IN PARIS") "Temperature IN PARIS"
  = getWeather (Some "London") /\
  getWeather (Some "Atlantis") london_only_world =
    (Ok "Weather location not found.", [CallGeocode "Atlantis"]).
Proof.
  apply (weather_location_selection london_only_world
           "Temperature IN PARIS" "Atlantis").
  - reflexivity.
  - intros pre c post E.
    assert (I : includes "Temperature IN PARIS" "in " = true).
    { rewrite E. apply includes_app. }
    vm_compute in I. discriminate I.
  - right. reflexivity.
Defined.

(** C2 (as stated) fails: a location the geocoder cannot match is not
    replaced by "London", although "London" would have been found. *)
Lemma unmatched_location_not_defaulted :
  routeQuery "weather in Atlantis" = Weather /\
  extract_location "weather in Atlantis" = "Atlantis" /\
  geocode london_only_world "Atlantis" = Ok (Some []) /\
  dispatch Weather "weather in Atlantis" london_only_world =
    (Ok "Weather location not found.", [CallGeocode "Atlantis"]) /\
  result (getWeather (Some "London")) london_only_world =
    Ok ("The weather in London is 15.2" ++ degree
        ++ "C with wind speed 10.1 km/h.").
Proof. repeat split. Qed.

(** * The model-augmented resolver *)

Module ModelFacts.
Import ModelAugmented.

Section Run.

Variable w : World.

Lemma chatWithOpenAI_run (m : string) :
  chatWithOpenAI m w =
  match openai_create w (direct_request m) with
  | Ok content => (Ok content, [CallOpenAI (direct_request m)])
  | Err e =>
      (Ok (if status_is e 401 then key_missing else request_failed),
       [CallOpenAI (direct_request m); CallConsoleError "OpenAI Error:" e])
  end.
Proof.
  unfold chatWithOpenAI, try_catch, completions_create, perform, bind,
    console_error.
  destruct (openai_create w (direct_request m)) as [c|e]; [reflexivity|].
  destruct (status_is e 401); reflexivity.
Qed.

Lemma chatWithOpenAI_total (m : string) :
  exists a, result (chatWithOpenAI m) w = Ok a.
Proof.
  unfold result. rewrite chatWithOpenAI_run.
  destruct (openai_create w _); eexists; reflexivity.
Qed.

Lemma search_run (q : string) :
  searchDuckDuckGo q w = (Ok (search_text w q), [CallDuckDuckGo q]).
Proof.
  unfold search_text, result, searchDuckDuckGo, try_catch, bind,
    axios_duckduckgo, perform.
  destruct (duckduckgo w q); reflexivity.
Qed.

Lemma search_text_unusable (q : string) :
  search_unusable w q ->
  search_text w q = "No results found." \/
  search_text w q = "Search unavailable.".
Proof.
  unfold search_unusable, search_text, result, searchDuckDuckGo, try_catch,
    bind, axios_duckduckgo, perform.
  destruct (duckduckgo w q) as [[a b]|e]; [|now right].
  cbn. intros [Ha Hb]. left.
  destruct a as [a|], b as [b|]; cbn in *;
    try rewrite Ha; try rewrite Hb; reflexivity.
Qed.

Lemma searchWithOpenAI_run (q : string) :
  searchWithOpenAI q w =
  let text := search_text w q in
  if negb (truthy text) || String.eqb text "No results found."
     || String.eqb text "Search unavailable."
  then (result (chatWithOpenAI q) w,
        CallDuckDuckGo q :: trace (chatWithOpenAI q) w)
  else match openai_create w (synthesis_request q text) with
       | Ok content =>
           (Ok content,
            [CallDuckDuckGo q; CallOpenAI (synthesis_request q text)])
       | Err e =>
           (result (chatWithOpenAI q) w,
            [CallDuckDuckGo q; CallOpenAI (synthesis_request q text);
             CallConsoleError "Search with OpenAI Error:" e]
            ++ trace (chatWithOpenAI q) w)%list
       end.
Proof.
  destruct (chatWithOpenAI_total q) as [a Ha].
  unfold result, trace in *.
  unfold searchWithOpenAI, try_catch, bind. rewrite search_run. cbv zeta.
  destruct (negb _ || _ || _).
  - destruct (chatWithOpenAI q w) as [r t]. cbn [fst] in Ha. now subst r.
  - unfold completions_create, perform, console_error.
    destruct (openai_create w (synthesis_request q (search_text w q)));
      [reflexivity|].
    destruct (chatWithOpenAI q w) as [r t]. reflexivity.
Qed.

End Run.

End ModelFacts.

Import ModelAugmented ModelFacts.

(** C8 (as amended): when the web search gives nothing usable, or the
    synthesis over its text fails, the completion is requested for the
    message alone and what [chatWithOpenAI] returns is the answer; after an
    unusable search nothing else is requested.  The resolver always returns
    a text, and the text is empty only when the completion service itself
    returned an empty content. *)
Theorem model_fallback_chain (w : World) (q : string) :
  (search_unusable w q \/ synthesis_fails w q ->
     In (CallOpenAI (direct_request q)) (trace (searchWithOpenAI q) w) /\
     result (searchWithOpenAI q) w = result (chatWithOpenAI q) w /\
     forall content,
       openai_create w (direct_request q) = Ok content ->
       result (searchWithOpenAI q) w = Ok content) /\
  (search_unusable w q ->
     trace (searchWithOpenAI q) w =
     CallDuckDuckGo q :: trace (chatWithOpenAI q) w) /\
  exists answer,
    result (searchWithOpenAI q) w = Ok answer /\
    (answer = "" -> exists req, openai_create w req = Ok "").
Proof.
  assert (Hdirect : In (CallOpenAI (direct_request q))
                       (trace (chatWithOpenAI q) w)).
  { unfold trace. rewrite chatWithOpenAI_run.
    destruct (openai_create w _); left; reflexivity. }
  assert (Hcontent : forall content,
             openai_create w (direct_request q) = Ok content ->
             result (chatWithOpenAI q) w = Ok content).
  { intros c Hc. unfold result. now rewrite chatWithOpenAI_run, Hc. }
  assert (Hempty : exists answer,
             result (chatWithOpenAI q) w = Ok answer /\
             (answer = "" -> exists req, openai_create w req = Ok "")).
  { unfold result. rewrite chatWithOpenAI_run.
    destruct (openai_create w (direct_request q)) as [c|e] eqn:E.
    - exists c. split; [reflexivity|]. intros ->. now exists (direct_request q).
    - eexists. split; [reflexivity|].
      destruct (status_is e 401); discriminate. }
  unfold result, trace in *.
  rewrite searchWithOpenAI_run. cbv zeta. unfold result, trace.
  split; [|split].
  - intros [Hs | [e He]].
    + destruct (search_text_unusable w q Hs) as [-> | ->]; cbn [fst snd];
        (split; [now right | split; [reflexivity | exact Hcontent]]).
    + destruct (negb _ || _ || _); cbn [fst snd].
      * split; [now right | split; [reflexivity | exact Hcontent]].
      * rewrite He. cbn [fst snd].
        split; [|split; [reflexivity | exact Hcontent]].
        apply in_or_app. now right.
  - intros Hs.
    destruct (search_text_unusable w q Hs) as [-> | ->]; reflexivity.
  - destruct (negb _ || _ || _); cbn [fst]; [exact Hempty|].
    destruct (openai_create w (synthesis_request q _)) as [c|e] eqn:E;
      cbn [fst]; [|exact Hempty].
    exists c. split; [reflexivity|]. intros ->.
    now exists (synthesis_request q (search_text w q)).
Qed.

(** The chat handler of this server answers with what [chatWithOpenAI]
    returned, and with nothing else. *)
Lemma model_chat_answer
  (w : World) (uid : option string) (msg r : string) (qt : option Intent) :
  result (ModelAugmented.chat (mkBody uid (Some msg))) w
  = Ok (ChatOk r qt) ->
  result (chatWithOpenAI msg) w = Ok r /\ qt = None.
Proof.
  destruct msg as [|c msg]; [discriminate|].
  destruct (chatWithOpenAI_total w (String c msg)) as [a Ha].
  unfold result in *.
  unfold ModelAugmented.chat, try_catch, bind, connection_ready,
    chat_save, console_error, perform, ret. cbn [message userId].
  destruct (chatWithOpenAI (String c msg) w) as [r0 t].
  cbn [fst] in Ha. subst r0. cbv zeta.
  destruct (db_ready w); [destruct (db_save w _)|]; cbn [fst];
    intros [= <- <-] || discriminate; now split.
Qed.

Lemma model_fallback_chain_witness :
  In (CallOpenAI (direct_request "capital of France"))
     (trace (searchWithOpenAI "capital of France") synthesis_down_world) /\
  result (searchWithOpenAI "capital of France") synthesis_down_world
  = result (chatWithOpenAI "capital of France") synthesis_down_world /\
  forall content,
    openai_create synthesis_down_world (direct_request "capital of France")
    = Ok content ->
    result (searchWithOpenAI "capital of France") synthesis_down_world
    = Ok content.
Proof.
  apply (model_fallback_chain synthesis_down_world "capital of France").
  right. exists (mkError "Rate limit" (Some 429)). reflexivity.
Defined.

(** C8 (as stated) fails: the search gives nothing, the completion for the
    message alone returns an empty content, and the empty text is the
    answer. *)
Lemma empty_completion_is_returned :
  search_unusable quiet_world "hello there" /\
  searchWithOpenAI "hello there" quiet_world =
    (Ok "", [CallDuckDuckGo "hello there";
             CallOpenAI (direct_request "hello there")]).
Proof. repeat split. Qed.

(** * The classifier's decision table *)

Section DecisionTable.

Lemma lower_char_idempotent (c : ascii) :
  lower_char (lower_char c) = lower_char c.
Proof. destruct c as [[] [] [] [] [] [] [] []]; reflexivity. Qed.

Lemma toLowerCase_idempotent (s : string) :
  toLowerCase (toLowerCase s) = toLowerCase s.
Proof.
  induction s as [|c s IH]; simpl; [reflexivity|].
  now rewrite lower_char_idempotent, IH.
Qed.

End DecisionTable.

(** X1: the exact condition of every intent, in priority order: weather on a
    weather keyword; time on a time keyword without weather keyword; math on
    the arithmetic pattern without either; knowledge on a knowledge phrase
    when none of these applies; general otherwise. *)
Theorem routeQuery_decision_table (text : string) :
  (routeQuery text = Weather <->
   contains_ci text "weather" \/ contains_ci text "temperature") /\
  (routeQuery text = Time <->
   ~ contains_ci text "weather" /\ ~ contains_ci text "temperature" /\
   (contains_ci text "time" \/ contains_ci text "date")) /\
  (routeQuery text = Math <->
   no_weather_or_time_keyword text /\ contains_flat_arithmetic text) /\
  (routeQuery text = Knowledge <->
   no_weather_or_time_keyword text /\ ~ contains_flat_arithmetic text /\
   (contains_ci text "who is" \/ contains_ci text "what is"
    \/ contains_ci text "define")) /\
  (routeQuery text = General <->
   no_weather_or_time_keyword text /\ ~ contains_flat_arithmetic text /\
   ~ contains_ci text "who is" /\ ~ contains_ci text "what is" /\
   ~ contains_ci text "define").
Proof.
  unfold routeQuery, no_weather_or_time_keyword.
  rewrite <- test_arithmetic_iff, <- !includes_lower_iff.
  destruct (includes (toLowerCase text) "weather");
    [cbn; intuition discriminate|].
  destruct (includes (toLowerCase text) "temperature");
    [cbn; intuition discriminate|].
  destruct (includes (toLowerCase text) "time");
    [cbn; intuition discriminate|].
  destruct (includes (toLowerCase text) "date");
    [cbn; intuition discriminate|].
  cbn [orb]. cbv iota.
  destruct (test arithmetic_re (toLowerCase text));
    [intuition discriminate|].
  destruct (includes (toLowerCase text) "who is");
    [cbn; intuition discriminate|].
  destruct (includes (toLowerCase text) "what is");
    [cbn; intuition discriminate|].
  destruct (includes (toLowerCase text) "define");
    cbn; intuition discriminate.
Qed.

(** X2: classification does not see letter case: two texts with the same
    lower-casing get the same intent, and so does the lower-cased text
    itself. *)
Theorem routeQuery_case_insensitive (a b : string)
  (H : toLowerCase a = toLowerCase b) :
  routeQuery a = routeQuery b /\ routeQuery (toLowerCase a) = routeQuery b.
Proof.
  unfold routeQuery. rewrite toLowerCase_idempotent, H. now split.
Qed.

Lemma routeQuery_case_insensitive_witness :
  routeQuery "What Is The TEMPERATURE?" = routeQuery "what is the temperature?"
  /\ routeQuery (toLowerCase "What Is The TEMPERATURE?")
     = routeQuery "what is the temperature?".
Proof.
  apply (routeQuery_case_insensitive "What Is The TEMPERATURE?"
           "what is the temperature?").
  reflexivity.
Defined.

(** * What the rule-routed handler asks of the outside world *)

Section RuleRoutedCalls.

Variable w : World.

Lemma all_chars_takeWhile (p : ascii -> bool) (s : string) :
  all_chars p (takeWhile p s) = true.
Proof.
  induction s as [|c s IH]; simpl; [reflexivity|].
  destruct (p c) eqn:E; simpl; [now rewrite E, IH | reflexivity].
Qed.

Lemma truthy_nonempty (s : string) : truthy s = true -> s <> "".
Proof. now destruct s. Qed.

Lemma extract_location_shape (msg : string) :
  extract_location msg <> "" /\
  all_chars is_letter_or_space (extract_location msg) = true.
Proof.
  rewrite extract_location_spec. unfold location_after_usable_in.
  destruct (run_after_usable_in msg) as [run|] eqn:E;
    [|split; [discriminate | reflexivity]].
  split; [exact (truthy_nonempty _ (run_after_usable_in_truthy _ _ E))|].
  clear w. induction msg as [|c s IH]; [discriminate|].
  cbn [run_after_usable_in] in E.
  destruct (startsWith "in " (String c s)
            && truthy (takeWhile is_letter_or_space (drop 3 (String c s)))).
  - injection E as <-. apply all_chars_takeWhile.
  - now apply IH.
Qed.

Lemma first_expression_run_shape (s run : string) :
  first_expression_run s = Some run ->
  run <> "" /\ all_chars is_expression_char run = true /\
  exists pre post, s = pre ++ run ++ post.
Proof.
  revert run. induction s as [|c s IH]; intros run; [discriminate|].
  cbn [first_expression_run].
  destruct (is_expression_char c) eqn:Hc.
  - intros E.
    assert (Er : run = takeWhile is_expression_char (String c s))
      by congruence.
    subst run. split; [|split].
    + simpl. now rewrite Hc.
    + apply all_chars_takeWhile.
    + exists "", (dropWhile is_expression_char (String c s)).
      now rewrite takeWhile_dropWhile.
  - intros H. destruct (IH _ H) as (Hne & Hall & pre & post & ->).
    split; [exact Hne | split; [exact Hall|]].
    now exists (String c pre), post.
Qed.

(** The weather resolver geocodes once and asks for a forecast only with the
    coordinates of the first place found. *)
Lemma getWeather_trace (location : option string) :
  let loc := default_to "London" location in
  trace (getWeather location) w = [CallGeocode loc] \/
  exists place rest,
    geocode w loc = Ok (Some (place :: rest)) /\
    trace (getWeather location) w =
    [CallGeocode loc; CallForecast (latitude place) (longitude place)].
Proof.
  cbv zeta. unfold trace.
  change (getWeather location)
    with (getWeather (Some (default_to "London" location))).
  rewrite getWeather_run.
  destruct (geocode w _) as [[[|place l]|]|e]; try (left; reflexivity).
  right. exists place, l. split; [reflexivity|].
  destruct (forecast w _ _) as [[cw|]|e]; reflexivity.
Qed.

(** The run of the chat handler for a message: the calls of the selected
    resolver, then at most a write and a log entry. *)
Lemma chat_trace (uid : option string) (msg : string) :
  msg <> "" ->
  exists r t tail,
    dispatch (routeQuery msg) msg w = (Ok r, t) /\
    Forall (fun c => call_owner c = Some (routeQuery msg)) t /\
    trace (RuleRouted.chat (mkBody uid (Some msg))) w = (t ++ tail)%list /\
    Forall (fun c => call_owner c = None) tail.
Proof.
  intros Hne.
  destruct (dispatch (routeQuery msg) msg w) as [[r|e] t] eqn:D.
  2:{ destruct (dispatch_total w (routeQuery msg) msg) as [r1 H1].
      unfold result in H1. rewrite D in H1. discriminate H1. }
  destruct (dispatch_source w _ _ _ _ D) as [_ Hown].
  unfold trace. rewrite (chat_run w uid msg r t Hne D). cbv zeta.
  destruct (db_ready w); [destruct (db_save w _) as [u|e]|]; cbn [snd].
  - exists r, t, [CallSave (mkChat (default_to "anonymous" uid) msg r)].
    repeat split; [exact Hown | repeat constructor].
  - exists r, t, [CallSave (mkChat (default_to "anonymous" uid) msg r);
                  CallConsoleError "Chat error:" e].
    repeat split; [exact Hown | now rewrite <- app_assoc
                              | repeat constructor].
  - exists r, t, []. repeat split; [exact Hown | constructor].
Qed.

(** A call that belongs to a resolver was made by the resolver of the
    message's intent. *)
Lemma chat_resolver_call (body : ChatBody) (c : call) (i : Intent) :
  call_owner c = Some i ->
  In c (trace (RuleRouted.chat body) w) ->
  exists msg r t,
    message body = Some msg /\ msg <> "" /\ routeQuery msg = i /\
    dispatch i msg w = (Ok r, t) /\ In c t.
Proof.
  intros Hc Hin. destruct body as [uid [msg|]]; [|elim Hin].
  destruct (string_dec msg "") as [-> | Hne]; [elim Hin|].
  destruct (chat_trace uid msg Hne) as (r & t & tail & D & Ht & E & Htail).
  rewrite E in Hin. apply in_app_or in Hin as [Hin | Hin].
  - assert (Hi : call_owner c = Some (routeQuery msg)).
    { rewrite Forall_forall in Ht. now apply Ht. }
    assert (Ei : routeQuery msg = i) by congruence.
    exists msg, r, t. rewrite <- Ei. repeat split; assumption.
  - rewrite Forall_forall in Htail. specialize (Htail _ Hin). congruence.
Qed.

End RuleRoutedCalls.

(** X3: the geocoder is only ever asked for the location extracted from a
    weather message, and that name is never empty and holds nothing but
    letters and whitespace. *)
Theorem geocoder_query_shape (w : World) (body : ChatBody) (loc : string)
  (H : In (CallGeocode loc) (trace (RuleRouted.chat body) w)) :
  loc <> "" /\ all_chars is_letter_or_space loc = true /\
  exists msg,
    message body = Some msg /\ routeQuery msg = Weather /\
    loc = extract_location msg.
Proof.
  destruct (chat_resolver_call w body (CallGeocode loc) Weather eq_refl H)
    as (msg & r & t & Hm & Hne & Hq & D & Hin).
  assert (E : loc = extract_location msg).
  { cbn [dispatch] in D.
    destruct (getWeather_trace w (Some (extract_location msg)))
      as [T | (place & rest & _ & T)];
      unfold trace in T; rewrite D in T; cbn [snd default_to] in T;
      subst t; cbn in Hin; intuition congruence. }
  subst loc. destruct (extract_location_shape msg) as [H1 H2].
  split; [exact H1 | split; [exact H2|]]. now exists msg.
Qed.

Lemma geocoder_query_shape_witness :
  "Rome today" <> "" /\ all_chars is_letter_or_space "Rome today" = true /\
  exists msg,
    message (mkBody None (Some "WEATHER IN PARIS? in Rome today")) = Some msg
    /\ routeQuery msg = Weather /\ "Rome today" = extract_location msg.
Proof.
  apply (geocoder_query_shape london_only_world
           (mkBody None (Some "WEATHER IN PARIS? in Rome today"))
           "Rome today").
  left. reflexivity.
Defined.

(** X4: [eval] is only ever given a non-empty piece of a math message made
    of digits, the characters + - * / ( ) . and whitespace. *)
Theorem eval_input_shape (w : World) (body : ChatBody) (src : string)
  (H : In (CallEval src) (trace (RuleRouted.chat body) w)) :
  src <> "" /\ all_chars is_expression_char src = true /\
  exists msg pre post,
    message body = Some msg /\ routeQuery msg = Math /\
    msg = pre ++ src ++ post.
Proof.
  destruct (chat_resolver_call w body (CallEval src) Math eq_refl H)
    as (msg & r & t & Hm & Hne & Hq & D & Hin).
  rewrite math_run, exec_expression in D.
  destruct (first_expression_run msg) as [run|] eqn:E.
  - injection D as _ <-. destruct Hin as [[= <-] | []].
    destruct (first_expression_run_shape _ _ E)
      as (H1 & H2 & pre & post & Hs).
    split; [exact H1 | split; [exact H2|]]. now exists msg, pre, post.
  - injection D as _ <-. elim Hin.
Qed.

Lemma eval_input_shape_witness :
  " " <> "" /\ all_chars is_expression_char " " = true /\
  exists msg pre post,
    message (mkBody None (Some "What is 2 + 2?")) = Some msg /\
    routeQuery msg = Math /\ msg = pre ++ " " ++ post.
Proof.
  apply (eval_input_shape quiet_world (mkBody None (Some "What is 2 + 2?"))
           " ").
  left. reflexivity.
Defined.

(** X5: a forecast is requested only after the geocoder found a place, with
    the coordinates of the first place it returned, and nothing is called
    after it. *)
Theorem forecast_follows_geocode
  (w : World) (location : option string) (lat lon : string)
  (H : In (CallForecast lat lon) (trace (getWeather location) w)) :
  exists place rest,
    geocode w (default_to "London" location) = Ok (Some (place :: rest)) /\
    lat = latitude place /\ lon = longitude place /\
    trace (getWeather location) w =
    [CallGeocode (default_to "London" location); CallForecast lat lon].
Proof.
  destruct (getWeather_trace w location) as [T | (place & rest & G & T)];
    rewrite T in H; cbn in H.
  - intuition discriminate.
  - destruct H as [H | [H | []]]; [discriminate|]. injection H as <- <-.
    exists place, rest. repeat split; assumption.
Qed.

Lemma forecast_follows_geocode_witness :
  exists place rest,
    geocode london_only_world (default_to "London" None)
    = Ok (Some (place :: rest)) /\
    "51.50853" = latitude place /\ "-0.12574" = longitude place /\
    trace (getWeather None) london_only_world =
    [CallGeocode (default_to "London" None);
     CallForecast "51.50853" "-0.12574"].
Proof.
  apply (forecast_follows_geocode london_only_world None
           "51.50853" "-0.12574").
  right. left. reflexivity.
Defined.

(** * Replies of the rule-routed chat handler *)

Section RuleRoutedReplies.

Variable w : World.

Lemma or_else_nonempty (a : option string) (d : string) :
  d <> "" -> or_else a d <> "".
Proof.
  intros Hd. destruct a as [x|]; simpl; [|exact Hd].
  destruct x; simpl; [exact Hd | discriminate].
Qed.

(** No resolver answers with the empty text. *)
Lemma dispatch_nonempty (qt : Intent) (msg r : string) :
  result (dispatch qt msg) w = Ok r -> r <> "".
Proof.
  unfold result. destruct qt.
  - cbn [dispatch]. rewrite getWeather_run.
    destruct (geocode w _) as [[[|place l]|]|e];
      try (intros [= <-]; discriminate).
    destruct (forecast w _ _) as [[cw|]|e]; intros [= <-]; discriminate.
  - intros [= <-]. discriminate.
  - rewrite math_run. destruct (exec expression_re msg) as [m|].
    + destruct (js_eval w _); intros [= <-]; discriminate.
    + intros [= <-]. discriminate.
  - cbn [dispatch]. rewrite searchWikipedia_run.
    destruct (wikipedia w _) as [x|e]; intros [= <-]; [|discriminate].
    apply or_else_nonempty. discriminate.
  - apply general_answer_nonempty.
Qed.

End RuleRoutedReplies.

(** On a message that is a string or missing the chat handler has three
    replies: the 400 "Message is required" exactly for a missing or empty
    message; the resolver's answer, which is never empty, when the database
    is not connected or the write succeeds; and the 500 "Server error" when
    the write to the connected database fails. *)
Lemma chat_reply_taxonomy (w : World) (body : ChatBody) :
  exists reply,
    result (RuleRouted.chat body) w = Ok reply /\
    ((reply = ErrorReply 400 "Message is required" None /\
      (message body = None \/ message body = Some "")) \/
     (exists msg r,
         message body = Some msg /\ msg <> "" /\
         result (dispatch (routeQuery msg) msg) w = Ok r /\ r <> "" /\
         reply = ChatOk r (Some (routeQuery msg)) /\
         (db_ready w = false \/
          exists u, db_save w (mkChat (default_to "anonymous" (userId body))
                                      msg r) = Ok u)) \/
     (exists msg r e,
         message body = Some msg /\ msg <> "" /\
         result (dispatch (routeQuery msg) msg) w = Ok r /\
         db_ready w = true /\
         db_save w (mkChat (default_to "anonymous" (userId body)) msg r)
         = Err e /\
         reply = ErrorReply 500 "Server error" (Some (err_message e)))).
Proof.
  destruct body as [uid [msg|]].
  2:{ eexists. split; [reflexivity|]. left. split; [reflexivity | now left]. }
  destruct (string_dec msg "") as [-> | Hne].
  { eexists. split; [reflexivity|]. left. split; [reflexivity | now right]. }
  destruct (dispatch_total w (routeQuery msg) msg) as [r Hr].
  assert (Hnz := dispatch_nonempty w _ _ _ Hr).
  unfold result in *.
  destruct (dispatch (routeQuery msg) msg w) as [r0 t] eqn:D.
  cbn [fst] in Hr. subst r0.
  assert (Hd : fst (dispatch (routeQuery msg) msg w) = Ok r) by now rewrite D.
  rewrite (chat_run w uid msg r t Hne D). cbv zeta. cbn [userId message].
  destruct (db_ready w) eqn:Hready.
  - destruct (db_save w _) as [u|e] eqn:Hsave; cbn [fst];
      eexists; (split; [reflexivity|]).
    + right. left. exists msg, r. repeat split; try assumption.
      right. now exists u.
    + right. right. exists msg, r, e. repeat split; assumption.
  - eexists. split; [reflexivity|].
    right. left. exists msg, r. repeat split; try assumption. now left.
Qed.

(** On a message that is a string or missing, the handler on every body is
    the handler on chat bodies. *)
Lemma chat_json_text (body : ChatBody) :
  RuleRoutedJson.chat (RuleRoutedJson.of_chat_body body)
  = RuleRouted.chat body.
Proof. destruct body as [uid [[|c s]|]]; reflexivity. Qed.

(** X6: on every body the chat handler never throws outward and has four
    outcomes.  A missing, empty or otherwise falsy message: the 400 "Message
    is required", nothing called.  A message that is no string but truthy:
    the 500 "Server error" carrying the TypeError of [routeQuery], with only
    the log entry and neither resolver nor write, whatever the database's
    state.  A non-empty string: the resolver's answer, never empty, when the
    database is not connected or the write succeeds, and the 500 "Server
    error" carrying the write's error when the write fails. *)
Theorem chat_json_reply_taxonomy
  (w : World) (body : RuleRoutedJson.JsonBody) :
  let uid := RuleRoutedJson.json_userId body in
  let field := RuleRoutedJson.json_message body in
  ((field = RuleRoutedJson.NoMessage \/
    field = RuleRoutedJson.FalsyValue \/
    field = RuleRoutedJson.TextMessage "") /\
   RuleRoutedJson.chat body w =
     (Ok (ErrorReply 400 "Message is required" None), [])) \/
  (field = RuleRoutedJson.TruthyValue /\
   RuleRoutedJson.chat body w =
     (Ok (ErrorReply 500 "Server error"
            (Some "query.toLowerCase is not a function")),
      [CallConsoleError "Chat error:" RuleRoutedJson.not_a_string])) \/
  (exists msg r,
      field = RuleRoutedJson.TextMessage msg /\ msg <> "" /\
      result (dispatch (routeQuery msg) msg) w = Ok r /\ r <> "" /\
      (db_ready w = false \/
       exists u,
         db_save w (mkChat (default_to "anonymous" uid) msg r) = Ok u) /\
      result (RuleRoutedJson.chat body) w
      = Ok (ChatOk r (Some (routeQuery msg))) /\
      Forall (fun c => is_save_call c = true \/
                       call_owner c = Some (routeQuery msg))
             (trace (RuleRoutedJson.chat body) w)) \/
  (exists msg r e,
      field = RuleRoutedJson.TextMessage msg /\ msg <> "" /\
      result (dispatch (routeQuery msg) msg) w = Ok r /\
      db_ready w = true /\
      db_save w (mkChat (default_to "anonymous" uid) msg r) = Err e /\
      result (RuleRoutedJson.chat body) w
      = Ok (ErrorReply 500 "Server error" (Some (err_message e)))).
Proof.
  cbv zeta. destruct body as [uid [ |msg| | ]]; cbn [RuleRoutedJson.json_userId
    RuleRoutedJson.json_message].
  - left. split; [now left | reflexivity].
  - change (RuleRoutedJson.chat (RuleRoutedJson.mkJsonBody uid
              (RuleRoutedJson.TextMessage msg)))
      with (RuleRoutedJson.chat
              (RuleRoutedJson.of_chat_body (mkBody uid (Some msg)))).
    rewrite chat_json_text.
    destruct (string_dec msg "") as [-> | Hne].
    { left. split; [now right; right | reflexivity]. }
    destruct (dispatch_total w (routeQuery msg) msg) as [r Hr].
    assert (Hnz := dispatch_nonempty w _ _ _ Hr).
    destruct (dispatch (routeQuery msg) msg w) as [r0 t] eqn:D.
    assert (Er : r0 = Ok r) by (unfold result in Hr; now rewrite D in Hr).
    subst r0.
    destruct (dispatch_source w _ _ _ _ D) as [_ Hown].
    unfold result, trace. rewrite (chat_run w uid msg r t Hne D). cbv zeta.
    destruct (db_ready w) eqn:Hready.
    + destruct (db_save w _) as [u|e] eqn:Hsave; cbn [fst snd].
      * right. right. left. exists msg, r.
        repeat split; try assumption; try reflexivity.
        -- right. now exists u.
        -- apply Forall_app. split.
           ++ eapply Forall_impl; [|exact Hown]. intros c Hc. now right.
           ++ repeat constructor.
      * right. right. right. exists msg, r, e.
        repeat split; try assumption; reflexivity.
    + cbn [fst snd]. right. right. left. exists msg, r.
      repeat split; try assumption; try reflexivity.
      * now left.
      * apply Forall_app. split; [|constructor].
        eapply Forall_impl; [|exact Hown]. intros c Hc. now right.
  - left. split; [now right; left | reflexivity].
  - right. left. split; reflexivity.
Qed.

(** X7: when the chat handler replies with an answer, it has written to the
    database at most once, after every call of the resolver: one document
    holding the user id (or "anonymous"), the message and the very text of
    the reply when the database is connected, and nothing otherwise. *)
Theorem saved_document_matches_reply
  (w : World) (uid : option string) (msg r : string) (qt : option Intent)
  (H : result (RuleRouted.chat (mkBody uid (Some msg))) w
       = Ok (ChatOk r qt)) :
  exists t,
    Forall (fun c => call_owner c = Some (routeQuery msg)) t /\
    trace (RuleRouted.chat (mkBody uid (Some msg))) w =
    (t ++ if db_ready w
          then [CallSave (mkChat (default_to "anonymous" uid) msg r)]
          else [])%list.
Proof.
  assert (Hne : msg <> "") by (intros ->; discriminate H).
  destruct (dispatch (routeQuery msg) msg w) as [[r0|e] t] eqn:D.
  2:{ destruct (dispatch_total w (routeQuery msg) msg) as [r1 H1].
      unfold result in H1. rewrite D in H1. discriminate H1. }
  destruct (dispatch_source w _ _ _ _ D) as [_ Hown].
  unfold result, trace in *. rewrite (chat_run w uid msg r0 t Hne D) in *.
  cbv zeta in *. exists t. split; [exact Hown|].
  destruct (db_ready w); [|now injection H as <- _].
  destruct (db_save w _) as [u|e]; cbn [fst snd] in *; [|discriminate H].
  now injection H as <- _.
Qed.

Lemma saved_document_matches_reply_witness :
  exists t,
    Forall (fun c => call_owner c = Some (routeQuery "weather in Atlantis"))
           t /\
    trace (RuleRouted.chat (mkBody None (Some "weather in Atlantis")))
          london_only_world =
    (t ++ if db_ready london_only_world
          then [CallSave (mkChat (default_to "anonymous" None)
                                 "weather in Atlantis"
                                 "Weather location not found.")]
          else [])%list.
Proof.
  apply (saved_document_matches_reply london_only_world None
           "weather in Atlantis" "Weather location not found."
           (Some Weather)).
  reflexivity.
Defined.

(** * The topic of a knowledge message *)

Section TopicExtraction.

Lemma rev_app (a b : string) : rev (a ++ b) = rev b ++ rev a.
Proof.
  induction a as [|c a IH]; simpl.
  - now rewrite append_nil_r.
  - now rewrite IH, append_assoc.
Qed.

Lemma rev_involutive (s : string) : rev (rev s) = s.
Proof.
  induction s as [|c s IH]; simpl; [reflexivity|].
  now rewrite rev_app, IH.
Qed.

Lemma length_rev (s : string) : String.length (rev s) = String.length s.
Proof.
  induction s as [|c s IH]; simpl; [reflexivity|].
  rewrite length_append, IH. simpl. lia.
Qed.

Lemma length_dropWhile (p : ascii -> bool) (s : string) :
  String.length (dropWhile p s) <= String.length s.
Proof.
  induction s as [|c s IH]; simpl; [lia|].
  destruct (p c); simpl; lia.
Qed.

Lemma starts_with_space_dropWhile (s : string) :
  starts_with_space (dropWhile is_space s) = false.
Proof.
  induction s as [|c s IH]; simpl; [reflexivity|].
  destruct (is_space c) eqn:E; [exact IH | simpl; exact E].
Qed.

Lemma dropWhile_snoc (p : ascii -> bool) (x : string) (c : ascii) :
  p c = false ->
  dropWhile p (x ++ String c "") = dropWhile p x ++ String c "".
Proof.
  intros Hc. induction x as [|d x IH]; simpl.
  - now rewrite Hc.
  - destruct (p d); [exact IH | reflexivity].
Qed.

(** [trim] leaves no whitespace at either end and never lengthens. *)
Lemma trim_ends (s : string) :
  starts_with_space (trim s) = false /\ ends_with_space (trim s) = false.
Proof.
  unfold trim, ends_with_space. split.
  - assert (H := starts_with_space_dropWhile s).
    destruct (dropWhile is_space s) as [|c a]; [reflexivity|].
    simpl in H. simpl rev at 2.
    rewrite (dropWhile_snoc is_space (rev a) c H), rev_app. exact H.
  - rewrite rev_involutive. apply starts_with_space_dropWhile.
Qed.

Lemma length_trim (s : string) : String.length (trim s) <= String.length s.
Proof.
  unfold trim. rewrite length_rev.
  etransitivity; [apply length_dropWhile|]. rewrite length_rev.
  apply length_dropWhile.
Qed.

Lemma length_remove_all_from (r : regex) (s : string) (skip : nat) :
  String.length (remove_all_from r s skip) <= String.length s - skip.
Proof.
  revert skip. induction s as [|c s IH]; intros skip; [simpl; lia|].
  cbn [remove_all_from]. destruct skip as [|n].
  - destruct (match_here r (String c s)) as [m|].
    + destruct (String.length (matched m)) as [|n].
      * specialize (IH 0). simpl. lia.
      * specialize (IH n). simpl. lia.
    + specialize (IH 0). simpl. lia.
  - specialize (IH n). simpl. lia.
Qed.

(** When every match has between [n] (at least one) and all of the
    remaining characters, a text with a match loses at least [n]
    characters. *)
Lemma length_remove_all (r : regex) (n : nat) :
  0 < n ->
  (forall s m, match_here r s = Some m ->
               n <= String.length (matched m) <= String.length s) ->
  forall s, exec r s <> None ->
            String.length (remove_all r s) + n <= String.length s.
Proof.
  intros Hn Hm. unfold remove_all.
  induction s as [|c s IH]; cbn [exec remove_all_from]; intros He.
  - destruct (match_here r "") as [m|] eqn:E; [|congruence].
    specialize (Hm _ _ E). simpl in Hm. lia.
  - destruct (match_here r (String c s)) as [m|] eqn:E.
    + specialize (Hm _ _ E). simpl in Hm.
      destruct (String.length (matched m)) as [|k]; [lia|].
      assert (L := length_remove_all_from r s k). simpl. lia.
    + specialize (IH He). simpl. lia.
Qed.

Lemma lang_lit_i_length (p a : string) :
  lang (lit_i p) a -> String.length a = String.length p.
Proof.
  revert a. induction p as [|c p IH]; intros a H; simpl in H.
  - now inversion H.
  - destruct (lang_seq_inv _ _ _ H) as (x & y & -> & Lx & Ly).
    destruct (lang_class_inv _ _ Lx) as (d & -> & _).
    simpl. now rewrite (IH _ Ly).
Qed.

Lemma lang_lit_i_intro (p a : string) :
  toLowerCase a = toLowerCase p -> lang (lit_i p) a.
Proof.
  revert a. induction p as [|c p IH]; intros a H.
  - destruct a; [constructor | discriminate].
  - destruct a as [|d a]; [discriminate|]. simpl in H.
    injection H as Hd Ha.
    change (String d a) with (String d "" ++ a). simpl lit_i.
    apply lang_seq; [|now apply IH].
    apply lang_class. now rewrite Hd, Ascii.eqb_refl.
Qed.

Lemma lang_group_inv (r : regex) (s : string) : lang (Group r) s -> lang r s.
Proof. now inversion 1. Qed.

Lemma lang_alt_inv (r1 r2 : regex) (s : string) :
  lang (Alt r1 r2) s -> lang r1 s \/ lang r2 s.
Proof. inversion 1; subst; [now left | now right]. Qed.

Lemma lang_phrase_length (a : string) :
  lang phrase_re a -> 6 <= String.length a.
Proof.
  unfold phrase_re. intros H. apply lang_group_inv in H.
  apply lang_alt_inv in H as [H | H]; [|apply lang_alt_inv in H as [H | H]];
    apply lang_lit_i_length in H; rewrite H; simpl; lia.
Qed.

Lemma match_here_phrase (s : string) (m : MatchResult) :
  match_here phrase_re s = Some m ->
  6 <= String.length (matched m) <= String.length s.
Proof.
  unfold match_here. intros H.
  destruct (rmatch_sound _ _ _ _ _ H) as (a & b & caps & -> & L & K).
  injection K as <-. cbn [matched]. rewrite consumed_app, length_append.
  apply lang_phrase_length in L. lia.
Qed.

Lemma knowledge_has_phrase (msg : string) :
  routeQuery msg = Knowledge -> exec phrase_re msg <> None.
Proof.
  unfold routeQuery.
  destruct (includes _ "weather" || includes _ "temperature");
    [discriminate|].
  destruct (includes _ "time" || includes _ "date"); [discriminate|].
  destruct (test arithmetic_re _); [discriminate|].
  destruct (includes (toLowerCase msg) "who is") eqn:E1.
  - intros _. apply includes_lower_iff in E1 as (pre & mid & post & -> & Hm).
    apply exec_found. unfold match_here. apply rmatch_complete;
      [|discriminate].
    apply lang_group, lang_alt_l. now apply lang_lit_i_intro.
  - destruct (includes (toLowerCase msg) "what is") eqn:E2.
    + intros _.
      apply includes_lower_iff in E2 as (pre & mid & post & -> & Hm).
      apply exec_found. unfold match_here. apply rmatch_complete;
        [|discriminate].
      apply lang_group, lang_alt_r, lang_alt_l. now apply lang_lit_i_intro.
    + destruct (includes (toLowerCase msg) "define") eqn:E3;
        [|discriminate].
      intros _.
      apply includes_lower_iff in E3 as (pre & mid & post & -> & Hm).
      apply exec_found. unfold match_here. apply rmatch_complete;
        [|discriminate].
      apply lang_group, lang_alt_r, lang_alt_r. now apply lang_lit_i_intro.
Qed.

Lemma extract_topic_shape (msg : string) :
  routeQuery msg = Knowledge ->
  starts_with_space (extract_topic msg) = false /\
  ends_with_space (extract_topic msg) = false /\
  String.length (extract_topic msg) + 6 <= String.length msg.
Proof.
  intros H. unfold extract_topic.
  destruct (trim_ends (remove_all phrase_re msg)) as [H1 H2].
  split; [exact H1 | split; [exact H2|]].
  assert (L1 := length_trim (remove_all phrase_re msg)).
  assert (L2 := length_remove_all phrase_re 6 ltac:(lia) match_here_phrase
                  msg (knowledge_has_phrase msg H)).
  lia.
Qed.

End TopicExtraction.

(** X8: Wikipedia is only ever asked for the topic of a knowledge message:
    the message without the phrases "who is", "what is", "define" (in any
    letter case), which has no whitespace at either end and is at least six
    characters shorter than the message. *)
Theorem wikipedia_query_shape (w : World) (body : ChatBody) (topic : string)
  (H : In (CallWikipedia topic) (trace (RuleRouted.chat body) w)) :
  exists msg,
    message body = Some msg /\ routeQuery msg = Knowledge /\
    topic = extract_topic msg /\
    starts_with_space topic = false /\ ends_with_space topic = false /\
    String.length topic + 6 <= String.length msg.
Proof.
  destruct (chat_resolver_call w body (CallWikipedia topic) Knowledge
              eq_refl H)
    as (msg & r & t & Hm & Hne & Hq & D & Hin).
  cbn [dispatch] in D. rewrite searchWikipedia_run in D.
  injection D as _ <-. destruct Hin as [[= <-] | []].
  destruct (extract_topic_shape msg Hq) as (H1 & H2 & H3).
  exists msg. repeat split; assumption.
Qed.

Lemma wikipedia_query_shape_witness :
  exists msg,
    message (mkBody None (Some "  Who IS Ada Lovelace ?")) = Some msg /\
    routeQuery msg = Knowledge /\
    "Ada Lovelace ?" = extract_topic msg /\
    starts_with_space "Ada Lovelace ?" = false /\
    ends_with_space "Ada Lovelace ?" = false /\
    String.length "Ada Lovelace ?" + 6 <= String.length msg.
Proof.
  apply (wikipedia_query_shape quiet_world
           (mkBody None (Some "  Who IS Ada Lovelace ?")) "Ada Lovelace ?").
  left. reflexivity.
Defined.

(** * Totality of the model-augmented resolver *)


(** * The search endpoints *)



(** * The model-augmented handlers *)

(** X11: on a failed completion request [chatWithOpenAI] does not throw: it
    logs the error and answers with one of two distinct, non-empty texts,
    the one about the API key exactly when the error's status is 401. *)
Theorem completion_failure_answer (w : World) (m : string) (e : JsError)
  (He : openai_create w (direct_request m) = Err e) :
  chatWithOpenAI m w =
    (Ok (if status_is e 401 then key_missing else request_failed),
     [CallOpenAI (direct_request m); CallConsoleError "OpenAI Error:" e]) /\
  (result (chatWithOpenAI m) w = Ok key_missing <->
   err_status e = Some 401) /\
  key_missing <> "" /\ request_failed <> "" /\ key_missing <> request_failed.
Proof.
  rewrite chatWithOpenAI_run, He. split; [reflexivity|].
  split; [|repeat split; discriminate].
  unfold result. rewrite chatWithOpenAI_run, He. cbn [fst].
  unfold status_is. destruct (err_status e) as [n|].
  - destruct (Nat.eqb_spec n 401) as [-> | Hn].
    + now split.
    + split; [discriminate | congruence].
  - split; discriminate.
Qed.

Lemma completion_failure_answer_witness :
  chatWithOpenAI "hello" rejected_key_world =
    (Ok (if status_is (mkError "Incorrect API key" (Some 401)) 401
         then key_missing else request_failed),
     [CallOpenAI (direct_request "hello");
      CallConsoleError "OpenAI Error:"
        (mkError "Incorrect API key" (Some 401))]) /\
  (result (chatWithOpenAI "hello") rejected_key_world = Ok key_missing <->
   err_status (mkError "Incorrect API key" (Some 401)) = Some 401) /\
  key_missing <> "" /\ request_failed <> "" /\ key_missing <> request_failed.
Proof.
  apply (completion_failure_answer rejected_key_world "hello"
           (mkError "Incorrect API key" (Some 401))).
  reflexivity.
Defined.


(** X13: the voice handler is the chat handler: for every request the two
    give the same reply and make the same calls, but for the label of the
    entry logged when the write to the database fails. *)
Theorem voice_is_chat (w : World) (body : ChatBody) :
  result (ModelAugmentedVoice.voice body) w
  = result (ModelAugmented.chat body) w /\
  trace (ModelAugmentedVoice.voice body) w
  = map voice_label (trace (ModelAugmented.chat body) w).
Proof.
  unfold result, trace, ModelAugmentedVoice.voice, ModelAugmented.chat,
    try_catch, bind, connection_ready, chat_save, console_error, perform,
    ret.
  destruct (message body) as [[|c msg]|]; try (split; reflexivity).
  rewrite chatWithOpenAI_run.
  destruct (openai_create w _) as [a|e]; cbv zeta;
    (destruct (db_ready w); [destruct (db_save w _)|]); split; reflexivity.
Qed.


(** * The answers of the weather resolver *)

(** X15: the weather resolver never throws, and its two sentinels tell the
    failures apart: "Weather location not found." exactly when the geocoder
    answered without any place, "Unable to fetch weather at the moment."
    exactly when the geocoding request failed or the forecast for the first
    place failed or came without current weather. *)
Theorem weather_answer_cases (w : World) (location : option string) :
  exists answer,
    result (getWeather location) w = Ok answer /\
    (answer = "Weather location not found." <->
     geocode w (default_to "London" location) = Ok None \/
     geocode w (default_to "London" location) = Ok (Some [])) /\
    (answer = "Unable to fetch weather at the moment." <->
     (exists e, geocode w (default_to "London" location) = Err e) \/
     (exists place rest,
         geocode w (default_to "London" location)
         = Ok (Some (place :: rest)) /\
         forall current,
           forecast w (latitude place) (longitude place)
           <> Ok (Some current))).
Proof.
  unfold result.
  change (getWeather location)
    with (getWeather (Some (default_to "London" location))).
  rewrite getWeather_run.
  destruct (geocode w _) as [[[|place l]|]|e] eqn:G.
  - eexists. split; [reflexivity|]. split.
    + split; [now right | reflexivity].
    + split; [discriminate|].
      intros [[e He] | (p & r & Hp & _)]; discriminate.
  - destruct (forecast w _ _) as [[cw|]|e] eqn:F.
    + eexists. split; [reflexivity|]. cbn [append]. split.
      * split; [discriminate | intros [H | H]; discriminate H].
      * split; [discriminate|].
        intros [[e He] | (p & r & Hp & Hf)]; [discriminate|].
        injection Hp as <- <-. now elim (Hf cw).
    + eexists. split; [reflexivity|]. split.
      * split; [discriminate | intros [H | H]; discriminate H].
      * split; [|reflexivity]. intros _. right. exists place, l.
        split; [reflexivity|]. intros cw. rewrite F. discriminate.
    + eexists. split; [reflexivity|]. split.
      * split; [discriminate | intros [H | H]; discriminate H].
      * split; [|reflexivity]. intros _. right. exists place, l.
        split; [reflexivity|]. intros cw. rewrite F. discriminate.
  - eexists. split; [reflexivity|]. split.
    + split; [now left | reflexivity].
    + split; [discriminate|].
      intros [[e He] | (p & r & Hp & _)]; discriminate.
  - eexists. split; [reflexivity|]. split.
    + split; [discriminate | intros [H | H]; discriminate H].
    + split; [|reflexivity]. intros _. left. now exists e.
Qed.

(** * What [eval] is given *)

(** X16: for a math message [eval] is given the first maximal run of
    expression characters of the message, wherever the arithmetic itself
    stands: if nothing before the run is an expression character and the
    character after it is none, the run is the one source evaluated and the
    answer is built from its value. *)
Theorem eval_gets_first_run
  (w : World) (pre run rest : string)
  (Hmath : routeQuery (pre ++ run ++ rest) = Math)
  (Hpre : all_chars (fun c => negb (is_expression_char c)) pre = true)
  (Hne : run <> "")
  (Hrun : all_chars is_expression_char run = true)
  (Hrest : match rest with
           | String c _ => is_expression_char c = false
           | EmptyString => True
           end) :
  dispatch (routeQuery (pre ++ run ++ rest)) (pre ++ run ++ rest) w =
  (match js_eval w run with
   | Ok v => Ok ("The answer is: " ++ v)
   | Err _ => Ok "Could not calculate that."
   end, [CallEval run]).
Proof.
  rewrite Hmath.
  assert (E : first_expression_run (pre ++ run ++ rest) = Some run).
  { clear Hmath. induction pre as [|c pre IH]; simpl in *.
    - destruct run as [|c run]; [congruence|]. simpl in Hrun.
      apply andb_true_iff in Hrun as [Hc Hr].
      cbn [append first_expression_run]. rewrite Hc.
      f_equal. change (String c (run ++ rest)) with (String c run ++ rest).
      apply takeWhile_maximal; [|exact Hrest]. simpl. now rewrite Hc, Hr.
    - apply andb_true_iff in Hpre as [Hc Hp].
      apply negb_true_iff in Hc. rewrite Hc. now apply IH. }
  now rewrite math_run, exec_expression, E.
Qed.

Lemma eval_gets_first_run_witness :
  dispatch (routeQuery ("What" ++ " " ++ "is 2 + 2?"))
           ("What" ++ " " ++ "is 2 + 2?") quiet_world =
  (match js_eval quiet_world " " with
   | Ok v => Ok ("The answer is: " ++ v)
   | Err _ => Ok "Could not calculate that."
   end, [CallEval " "]).
Proof.
  apply (eval_gets_first_run quiet_world "What" " " "is 2 + 2?");
    try reflexivity.
  discriminate.
Defined.
